(** * Radar dashboard: session, polling, stream and command coordination

    A shallow embedding of the client-side services of the dashboard
    ([services/auth.ts], [services/aws-authenticated.ts],
    [services/jetson.ts]) and of the event handlers of [pages/LiveView.tsx],
    followed by the properties of the session coordinator that hold of them.

    Asynchronous functions are split at their [await] points: the part that
    runs up to the network call, and the continuation that runs when the
    awaited promise settles.  The browser (web storage, wall clock) is an
    explicit state threaded through a small state-and-exception monad. *)

From stdpp Require Import base option list gmap strings pretty.
From Stdlib Require Import ZArith QArith Lia.

#[local] Set Warnings "-clear-no-such-hyp".

Local Open Scope string_scope.
Local Open Scope Z_scope.

(** ** JavaScript values and control flow *)

Module Js.

(** A thrown value.  [error instanceof Error] holds of [ErrorObj] only. *)
Inductive Thrown : Type :=
| ErrorObj (message : string)
| OtherValue (v : string).

(** The outcome of a settled promise. *)
Inductive Settled (A : Type) : Type :=
| Resolved (a : A)
| Rejected (e : Thrown).
Global Arguments Resolved {A} a.
Global Arguments Rejected {A} e.

(** [hay.includes(needle)] *)
Fixpoint includes (hay needle : string) : bool :=
  String.prefix needle hay ||
  match hay with
  | EmptyString => false
  | String _ rest => includes rest needle
  end.

(** Truthiness of a [string | null]: [null] and the empty string are falsy. *)
Definition truthy (v : option string) : bool :=
  match v with
  | Some s => negb (String.eqb s "")
  | None => false
  end.

(** [x ?? d] and [x || d] where [x] is an optional field of object type:
    both fall back on [undefined] only. *)
Definition nullish {A} (x : option A) (d : A) : A := default d x.

End Js.
Import Js.

(** ** The browser: web storage and wall clock *)

Record Browser : Type := mkBrowser {
  sessionStorage : gmap string string;
  localStorage : gmap string string;
  clock : Z;
}.

(** Computations over the browser that either return or throw. *)
Definition Eff (A : Type) : Type := Browser -> Settled A * Browser.

Definition ret {A} (a : A) : Eff A := fun b => (Resolved a, b).
Definition throw {A} (e : Thrown) : Eff A := fun b => (Rejected e, b).
Definition bind {A B} (m : Eff A) (k : A -> Eff B) : Eff B :=
  fun b =>
    match m b with
    | (Resolved a, b') => k a b'
    | (Rejected e, b') => (Rejected e, b')
    end.
(** [try { m } catch (error) { h error }] *)
Definition try_catch {A} (m : Eff A) (h : Thrown -> Eff A) : Eff A :=
  fun b =>
    match m b with
    | (Resolved a, b') => (Resolved a, b')
    | (Rejected e, b') => h e b'
    end.
(** [await p] on a promise that has settled. *)
Definition await {A} (p : Settled A) : Eff A := fun b => (p, b).

#[global] Instance Eff_ret : MRet Eff := @ret.
#[global] Instance Eff_bind : MBind Eff := fun A B k m => bind m k.

(** ** services/auth.ts *)

Module Auth.

Definition TOKEN_KEY : string := "access_token".
Definition USERNAME_KEY : string := "username".

Definition sessionStorage_getItem (k : string) : Eff (option string) :=
  fun b => (Resolved (sessionStorage b !! k), b).
Definition localStorage_getItem (k : string) : Eff (option string) :=
  fun b => (Resolved (localStorage b !! k), b).
Definition sessionStorage_setItem (k v : string) : Eff unit :=
  fun b => (Resolved tt,
            mkBrowser (<[k := v]> (sessionStorage b)) (localStorage b) (clock b)).
Definition sessionStorage_removeItem (k : string) : Eff unit :=
  fun b => (Resolved tt,
            mkBrowser (delete k (sessionStorage b)) (localStorage b) (clock b)).
Definition localStorage_removeItem (k : string) : Eff unit :=
  fun b => (Resolved tt,
            mkBrowser (sessionStorage b) (delete k (localStorage b)) (clock b)).

(** The tail of [login], after the backend has accepted the credentials. *)
Definition login_store (access_token username : string) : Eff unit :=
  sessionStorage_setItem TOKEN_KEY access_token;;
  sessionStorage_setItem USERNAME_KEY username.

Definition logout : Eff unit :=
  sessionStorage_removeItem TOKEN_KEY;;
  sessionStorage_removeItem USERNAME_KEY;;
  localStorage_removeItem TOKEN_KEY;;
  localStorage_removeItem USERNAME_KEY.

Definition getToken : Eff (option string) :=
  s ← sessionStorage_getItem TOKEN_KEY;
  if truthy s then ret s else localStorage_getItem TOKEN_KEY.

Definition isAuthenticated : Eff bool :=
  t ← getToken;
  ret (match t with Some _ => true | None => false end).

Definition getUsername : Eff (option string) :=
  s ← sessionStorage_getItem USERNAME_KEY;
  if truthy s then ret s else localStorage_getItem USERNAME_KEY.

(** What [fetch] is called with. *)
Record Request : Type := mkRequest {
  url : string;
  headers : gmap string string;
}.

(** What [fetch] resolves to; [J] is the type of the parsed body. *)
Record Response (J : Type) : Type := mkResponse {
  status : Z;
  statusText : string;
  text : Settled string;
  json : Settled J;
}.
Global Arguments mkResponse {J} _ _ _ _.
Global Arguments status {J} _.
Global Arguments statusText {J} _.
Global Arguments text {J} _.
Global Arguments json {J} _.

Definition ok {J} (r : Response J) : bool :=
  (200 <=? status r) && (status r <=? 299).

(** [authenticatedFetch] up to the call of [fetch]: the request it sends,
    unless no token is stored.  [options_headers] are the entries that
    [existingHeaders.forEach] goes through, that is, the headers of the
    options as [new Headers(options.headers)] keeps them, names in lower
    case; there are none when the options have no headers, which is how
    every caller in the repository calls.  They are written into the
    record over the default content type, and the bearer token last. *)
Definition authenticatedFetch_request
    (u : string) (options_headers : gmap string string) : Eff Request :=
  token ← getToken;
  match token with
  | Some t =>
      if truthy token
      then ret (mkRequest u
                  (<["Authorization" := "Bearer " +:+ t]>
                     (options_headers ∪ {["Content-Type" := "application/json"]})))
      else throw (ErrorObj "No authentication token found. Please login.")
  | None => throw (ErrorObj "No authentication token found. Please login.")
  end.

(** [authenticatedFetch] from the point where [fetch] has settled. *)
Definition authenticatedFetch_response {J}
    (fetched : Settled (Response J)) : Eff (Response J) :=
  response ← await fetched;
  if status response =? 401
  then logout;; throw (ErrorObj "Session expired. Please login again.")
  else ret response.

(** The whole call against a remote that answers at once. *)
Definition authenticatedFetch {J}
    (remote : Request -> Settled (Response J))
    (u : string) (options_headers : gmap string string) : Eff (Response J) :=
  req ← authenticatedFetch_request u options_headers;
  authenticatedFetch_response (remote req).

End Auth.

(** ** config.ts *)

Module Config.

Definition JETSON_BASE_URL : string := "http://127.0.0.1:8080".
Definition JETSON_OFFER_URL : string := JETSON_BASE_URL +:+ "/offer".
Definition JETSON_STOP_TRACKING_URL : string := JETSON_BASE_URL +:+ "/stop_tracking".
Definition JETSON_MARK_THREAT_URL : string := JETSON_BASE_URL +:+ "/mark_threat".
Definition AWS_BASE : string :=
  "https://djpawwqotb.execute-api.eu-central-1.amazonaws.com/prod".
Definition JETSON_ID : string := "jetson_nano_01".
Definition AWS_DETECTIONS_URL : string := AWS_BASE +:+ "/detections".

End Config.

(** ** services/aws-authenticated.ts *)

Module Aws.
Import Auth Config.

(** A timestamp is either text received from the backend or the ISO
    rendering of a reading of the browser clock
    ([new Date().toISOString()]). *)
Inductive Timestamp : Type :=
| IsoText (s : string)
| IsoOfClock (ms : Z).

Record Detection : Type := mkDetection {
  label : string;
  confidence : Q;
}.

(** An element of the [Items] array of the backend's answer. *)
Record HistoryItem : Type := mkHistoryItem {
  item_timestamp : Timestamp;
  item_fps : option Q;
  item_detections : option (list Detection);
  item_image_key : option string;
}.

Record GetDetectionsResponse : Type := mkGetDetectionsResponse {
  Items : option (list HistoryItem);
}.

Record LiveDetections : Type := mkLiveDetections {
  timestamp : Timestamp;
  fps : Q;
  detections : list Detection;
  image_key : option string;
}.

(** [{ timestamp: new Date().toISOString(), fps: 0, detections: [] }] *)
Definition emptyDetections : Eff LiveDetections :=
  fun b => (Resolved (mkLiveDetections (IsoOfClock (clock b)) 0%Q [] None), b).

(** [error instanceof Error && error.message.includes('login')] *)
Definition is_login_error (error : Thrown) : bool :=
  match error with
  | ErrorObj message => includes message "login"
  | OtherValue _ => false
  end.

(** The [catch] block of [getLatestDetections]. *)
Definition getLatestDetections_catch (error : Thrown) : Eff LiveDetections :=
  if is_login_error error then throw error else emptyDetections.

Definition detections_url : string :=
  AWS_DETECTIONS_URL +:+ "?jetson_id=" +:+ JETSON_ID.

(** The [try] block of [getLatestDetections] from the point where the
    [fetch] made by [authenticatedFetch] has settled. *)
Definition getLatestDetections_try
    (fetched : Settled (Response GetDetectionsResponse)) : Eff LiveDetections :=
  res ← authenticatedFetch_response fetched;
  if negb (ok res)
  then
    errorText ← await (text res);
    throw (ErrorObj ("AWS /detections failed: " +:+ pretty (status res) +:+ " "
                     +:+ statusText res +:+ " - " +:+ errorText))
  else
    data ← await (json res);
    let items := nullish (Items data) [] in
    match items with
    | [] => emptyDetections
    | latest :: _ =>
        ret (mkLiveDetections (item_timestamp latest)
               (nullish (item_fps latest) 0%Q)
               (nullish (item_detections latest) [])
               (item_image_key latest))
    end.

(** An asynchronous call either suspends on a request it has passed to
    [fetch], or settles without reaching the network. *)
Inductive Started (A : Type) : Type :=
| Dispatched (req : Request)
| Finished (r : Settled A).
Global Arguments Dispatched {A} req.
Global Arguments Finished {A} r.

(** [getLatestDetections] up to its suspension on [fetch]. *)
Definition getLatestDetections_start (b : Browser) : Started LiveDetections * Browser :=
  match authenticatedFetch_request detections_url ∅ b with
  | (Resolved req, b') => (Dispatched req, b')
  | (Rejected error, b') =>
      let '(r, b'') := getLatestDetections_catch error b' in (Finished r, b'')
  end.

(** [getLatestDetections] from the point where [fetch] has settled. *)
Definition getLatestDetections_resume
    (fetched : Settled (Response GetDetectionsResponse)) : Eff LiveDetections :=
  try_catch (getLatestDetections_try fetched) getLatestDetections_catch.

(** The whole call against a remote that answers at once. *)
Definition getLatestDetections
    (remote : Request -> Settled (Response GetDetectionsResponse)) : Eff LiveDetections :=
  try_catch
    (req ← authenticatedFetch_request detections_url ∅;
     getLatestDetections_try (remote req))
    getLatestDetections_catch.

End Aws.

(** ** pages/LiveView.tsx: detections, manual refresh and auto-refresh

    The detection concern of the component together with the run-time
    objects its handlers create: interval timers and the requests that
    have been passed to [fetch] and have not settled yet. *)

Module Polling.
Import Auth Aws.

(** Who awaits a request: a [poll] of the schedule with the given interval
    handle, or [refreshDetections]. *)
Inductive Origin : Type :=
| FromPoll (intervalId : nat)
| FromRefresh.

Record State : Type := mkState {
  browser : Browser;
  (* React state *)
  detData : LiveDetections;
  detectionsLoading : bool;
  autoRefresh : bool;
  (* the cleanup function returned by the auto-refresh effect *)
  stopPolling : option nat;
  (* interval handles that are set and not cleared *)
  timers : gset nat;
  nextTimer : nat;
  (* requests passed to [fetch], oldest first; a request's identifier is
     its position in this list *)
  sent : list Request;
  (* requests that have not settled, with the caller awaiting each *)
  inflight : gmap nat Origin;
}.

Definition set_browser (b : Browser) (s : State) : State :=
  mkState b (detData s) (detectionsLoading s) (autoRefresh s) (stopPolling s)
    (timers s) (nextTimer s) (sent s) (inflight s).
Definition setDetData (d : LiveDetections) (s : State) : State :=
  mkState (browser s) d (detectionsLoading s) (autoRefresh s) (stopPolling s)
    (timers s) (nextTimer s) (sent s) (inflight s).
Definition setDetectionsLoading (v : bool) (s : State) : State :=
  mkState (browser s) (detData s) v (autoRefresh s) (stopPolling s)
    (timers s) (nextTimer s) (sent s) (inflight s).
Definition setAutoRefresh (v : bool) (s : State) : State :=
  mkState (browser s) (detData s) (detectionsLoading s) v (stopPolling s)
    (timers s) (nextTimer s) (sent s) (inflight s).
Definition set_stopPolling (c : option nat) (s : State) : State :=
  mkState (browser s) (detData s) (detectionsLoading s) (autoRefresh s) c
    (timers s) (nextTimer s) (sent s) (inflight s).
Definition clearInterval (h : nat) (s : State) : State :=
  mkState (browser s) (detData s) (detectionsLoading s) (autoRefresh s) (stopPolling s)
    (timers s ∖ {[h]}) (nextTimer s) (sent s) (inflight s).
(** [setInterval] returns a fresh handle. *)
Definition setInterval (s : State) : State :=
  mkState (browser s) (detData s) (detectionsLoading s) (autoRefresh s) (stopPolling s)
    (timers s ∪ {[nextTimer s]}) (S (nextTimer s)) (sent s) (inflight s).
(** [fetch(req)] on behalf of [o]: the request leaves and stays outstanding. *)
Definition fetch (req : Request) (o : Origin) (s : State) : State :=
  mkState (browser s) (detData s) (detectionsLoading s) (autoRefresh s) (stopPolling s)
    (timers s) (nextTimer s) (sent s ++ [req]) (<[length (sent s) := o]> (inflight s)).
Definition settle_request (id : nat) (s : State) : State :=
  mkState (browser s) (detData s) (detectionsLoading s) (autoRefresh s) (stopPolling s)
    (timers s) (nextTimer s) (sent s) (delete id (inflight s)).

(** *** refreshDetections *)

(** After [await getLatestDetections()] has settled with [r]. *)
Definition refreshDetections_settled (r : Settled LiveDetections) (s : State) : State :=
  let s1 := match r with
            | Resolved latest => setDetData latest s
            | Rejected _ => s
            end in
  setDetectionsLoading false s1.

Definition refreshDetections (s : State) : State :=
  let s1 := setDetectionsLoading true s in
  match getLatestDetections_start (browser s1) with
  | (Dispatched req, b) => fetch req FromRefresh (set_browser b s1)
  | (Finished r, b) => refreshDetections_settled r (set_browser b s1)
  end.

(** *** startDetectionPolling (services/aws-authenticated.ts), with
    [callback := setDetData] as the auto-refresh effect passes it *)

(** [poll] after [await getLatestDetections()] has settled with [r];
    [intervalId] is the handle of the schedule the poll belongs to. *)
Definition poll_settled (intervalId : nat) (r : Settled LiveDetections) (s : State) : State :=
  match r with
  | Resolved detections => setDetData detections s
  | Rejected error =>
      if is_login_error error then clearInterval intervalId s else s
  end.

(** [poll] up to its suspension: either a request is outstanding, or the
    call has settled and the rest of [poll] is queued as a microtask. *)
Definition poll_start (intervalId : nat) (s : State)
    : State * option (Settled LiveDetections) :=
  match getLatestDetections_start (browser s) with
  | (Dispatched req, b) => (fetch req (FromPoll intervalId) (set_browser b s), None)
  | (Finished r, b) => (set_browser b s, Some r)
  end.

Definition run_microtask (intervalId : nat)
    (p : State * option (Settled LiveDetections)) : State :=
  match p with
  | (s, Some r) => poll_settled intervalId r s
  | (s, None) => s
  end.

(** A firing of the interval: [poll()] and then its queued continuation. *)
Definition poll (intervalId : nat) (s : State) : State :=
  run_microtask intervalId (poll_start intervalId s).

(** [startDetectionPolling]: the initial [poll()], then [setInterval]; the
    continuation of an initial poll that never reached the network runs
    once the synchronous code is over, when the handle exists. *)
Definition startDetectionPolling (s : State) : State * nat :=
  let intervalId := nextTimer s in
  let '(s1, queued) := poll_start intervalId s in
  let s2 := setInterval s1 in
  (run_microtask intervalId (s2, queued), intervalId).

(** *** the auto-refresh effect, run after a commit that changed
    [autoRefresh]: the previous cleanup first, then the effect body *)
Definition autoRefresh_effect (s : State) : State :=
  let s1 := match stopPolling s with
            | Some h => set_stopPolling None (clearInterval h s)
            | None => s
            end in
  if autoRefresh s1
  then let '(s2, h) := startDetectionPolling s1 in set_stopPolling (Some h) s2
  else s1.

Definition handleAutoRefreshToggle (s : State) : State :=
  let s1 := if negb (autoRefresh s) then refreshDetections s else s in
  autoRefresh_effect (setAutoRefresh (negb (autoRefresh s)) s1).

(** *** events

    What can happen to the component while it is mounted.  Logging in
    again is not among the events: the login page is shown instead of the
    component, never beside it, and nothing else writes a token.
    [Fetched id outcome] is the moment the answer to request [id] has been
    received in full: [outcome] is what [fetch] settled to, together with
    what reading the body gives. *)

Inductive Event : Type :=
| ClickAutoRefresh
| Tick (intervalId : nat)
| Fetched (id : nat) (outcome : Settled (Response GetDetectionsResponse))
| Clock (now : Z).

Definition on_fetched (id : nat)
    (outcome : Settled (Response GetDetectionsResponse)) (s : State) : State :=
  match inflight s !! id with
  | None => s
  | Some o =>
      let s1 := settle_request id s in
      let '(r, b) := getLatestDetections_resume outcome (browser s1) in
      let s2 := set_browser b s1 in
      match o with
      | FromRefresh => refreshDetections_settled r s2
      | FromPoll intervalId => poll_settled intervalId r s2
      end
  end.

Definition step (s : State) (e : Event) : State :=
  match e with
  | ClickAutoRefresh =>
      (* the button is disabled while [detectionsLoading] *)
      if detectionsLoading s then s else handleAutoRefreshToggle s
  | Tick h => if decide (h ∈ timers s) then poll h s else s
  | Fetched id outcome => on_fetched id outcome s
  | Clock now =>
      set_browser (mkBrowser (sessionStorage (browser s)) (localStorage (browser s)) now) s
  end.

Definition run (s : State) (es : list Event) : State := foldl step s es.

(** The component right after its first render in browser [b]: the mount
    effect has called [refreshDetections]. *)
Definition mounted (b : Browser) : State :=
  refreshDetections
    (mkState b (mkLiveDetections (IsoOfClock (clock b)) 0%Q [] None)
       false false None ∅ 0%nat [] ∅).

End Polling.

(** ** pages/LiveView.tsx: the live stream *)

Module Stream.

Inductive StreamState : Type := idle | connecting | streaming | error.

(** The [await] at which a call of [startStream] is suspended. *)
Inductive Await : Type :=
| AwaitCreateOffer
| AwaitSetLocalDescription
| AwaitFetch
| AwaitJson
| AwaitSetRemoteDescription.

Record State : Type := mkState {
  (* React state *)
  streamState : StreamState;
  streamError : string;
  hasVideo : bool;
  (* the call of [startStream] that has not returned yet, if any *)
  attempt : option Await;
  (* number of [RTCPeerConnection] objects created so far *)
  peers : nat;
  (* [videoRef.current.srcObject]: the peer connection whose stream it shows *)
  srcObject : option nat;
  (* calls of [video.play()] whose promise has not settled *)
  plays : nat;
}.

Definition init : State := mkState idle "" false None 0 None 0.

Definition setStreamState (v : StreamState) (s : State) : State :=
  mkState v (streamError s) (hasVideo s) (attempt s) (peers s) (srcObject s) (plays s).
Definition setStreamError (v : string) (s : State) : State :=
  mkState (streamState s) v (hasVideo s) (attempt s) (peers s) (srcObject s) (plays s).
Definition setHasVideo (v : bool) (s : State) : State :=
  mkState (streamState s) (streamError s) v (attempt s) (peers s) (srcObject s) (plays s).
Definition set_attempt (v : option Await) (s : State) : State :=
  mkState (streamState s) (streamError s) (hasVideo s) v (peers s) (srcObject s) (plays s).
Definition new_RTCPeerConnection (s : State) : State :=
  mkState (streamState s) (streamError s) (hasVideo s) (attempt s) (S (peers s))
    (srcObject s) (plays s).
Definition set_srcObject (pc : nat) (s : State) : State :=
  mkState (streamState s) (streamError s) (hasVideo s) (attempt s) (peers s)
    (Some pc) (plays s).
Definition set_plays (n : nat) (s : State) : State :=
  mkState (streamState s) (streamError s) (hasVideo s) (attempt s) (peers s)
    (srcObject s) n.

(** The [catch] block of [startStream]. *)
Definition startStream_catch (s : State) : State :=
  set_attempt None
    (setStreamError
       "Stream unavailable. Check Jetson URL / backend status, then try again."
       (setStreamState error s)).

(** [startStream] up to its first [await]; [constructed] tells whether
    [new RTCPeerConnection] and [addTransceiver] returned without throwing. *)
Definition startStream (constructed : bool) (s : State) : State :=
  match streamState s with
  | connecting | streaming => s
  | idle | error =>
      let s1 := setHasVideo false (setStreamError "" (setStreamState connecting s)) in
      if constructed
      then set_attempt (Some AwaitCreateOffer) (new_RTCPeerConnection s1)
      else startStream_catch s1
  end.

(** [pc.ontrack]: [has_stream] tells whether [event.streams?.[0]] exists. *)
Definition ontrack (pc : nat) (has_stream : bool) (s : State) : State :=
  if has_stream then set_plays (S (plays s)) (set_srcObject pc s) else s.

(** The [then] and [catch] callbacks of [videoRef.current.play()]. *)
Definition play_then (s : State) : State :=
  setStreamState streaming (setHasVideo true s).
Definition play_catch (s : State) : State :=
  setStreamState streaming s.

(** [onPlaying] of the video element. *)
Definition onPlaying (s : State) : State :=
  setStreamState streaming (setHasVideo true s).

Inductive Event : Type :=
| ClickStart (constructed : bool)
| OfferCreated                 (* [pc.createOffer()] resolved *)
| LocalDescriptionSet          (* [pc.setLocalDescription(offer)] resolved *)
| OfferAnswered (status : Z)   (* [fetch(JETSON_OFFER_URL, ...)] resolved *)
| AnswerParsed                 (* [res.json()] resolved *)
| RemoteDescriptionSet         (* [pc.setRemoteDescription(...)] resolved *)
| Failed                       (* the awaited promise rejected *)
| Track (pc : nat) (has_stream : bool)
| PlaySettled (played : bool)
| VideoPlaying.

Definition step (s : State) (e : Event) : State :=
  match e, attempt s with
  | ClickStart constructed, _ =>
      (* the button is disabled while connecting or streaming *)
      match streamState s with
      | connecting | streaming => s
      | idle | error => startStream constructed s
      end
  | OfferCreated, Some AwaitCreateOffer => set_attempt (Some AwaitSetLocalDescription) s
  | LocalDescriptionSet, Some AwaitSetLocalDescription => set_attempt (Some AwaitFetch) s
  | OfferAnswered status, Some AwaitFetch =>
      if (200 <=? status) && (status <=? 299)
      then set_attempt (Some AwaitJson) s
      else startStream_catch s
  | AnswerParsed, Some AwaitJson => set_attempt (Some AwaitSetRemoteDescription) s
  | RemoteDescriptionSet, Some AwaitSetRemoteDescription => set_attempt None s
  | Failed, Some _ => startStream_catch s
  | Track pc has_stream, _ =>
      if decide (pc < peers s)%nat then ontrack pc has_stream s else s
  | PlaySettled played, _ =>
      match plays s with
      | O => s
      | S n => (if played then play_then else play_catch) (set_plays n s)
      end
  | VideoPlaying, _ =>
      match srcObject s with
      | Some _ => onPlaying s
      | None => s
      end
  | _, _ => s
  end.

Definition run (s : State) (es : list Event) : State := foldl step s es.

End Stream.

(** ** services/jetson.ts and the control buttons of pages/LiveView.tsx *)

Module Commands.
Import Auth Config.

Inductive Control : Type := stop | threat.

(** [sendStopTracking] and [sendMarkThreat] from the point where their
    [fetch] has settled. *)
Definition sendStopTracking_resume (fetched : Settled (Response unit)) : Settled unit :=
  match fetched with
  | Resolved res =>
      if negb (ok res)
      then Rejected (ErrorObj ("Stop tracking failed: HTTP " +:+ pretty (status res)))
      else Resolved tt
  | Rejected e => Rejected e
  end.
Definition sendMarkThreat_resume (fetched : Settled (Response unit)) : Settled unit :=
  match fetched with
  | Resolved res =>
      if negb (ok res)
      then Rejected (ErrorObj ("Mark threat failed: HTTP " +:+ pretty (status res)))
      else Resolved tt
  | Rejected e => Rejected e
  end.

Record State : Type := mkState {
  (* React state *)
  controlLoading : option Control;
  controlMsg : string;
  (* URLs passed to [fetch] with method POST, oldest first *)
  sent : list string;
  (* requests that have not settled, with the handler awaiting each *)
  inflight : gmap nat Control;
}.

Definition init : State := mkState None "" [] ∅.

Definition setControlLoading (v : option Control) (s : State) : State :=
  mkState v (controlMsg s) (sent s) (inflight s).
Definition setControlMsg (v : string) (s : State) : State :=
  mkState (controlLoading s) v (sent s) (inflight s).
Definition fetch (u : string) (k : Control) (s : State) : State :=
  mkState (controlLoading s) (controlMsg s) (sent s ++ [u])
    (<[length (sent s) := k]> (inflight s)).
Definition settle_request (id : nat) (s : State) : State :=
  mkState (controlLoading s) (controlMsg s) (sent s) (delete id (inflight s)).

(** The handlers up to their [await]. *)
Definition handleStopTracking (s : State) : State :=
  fetch JETSON_STOP_TRACKING_URL stop
    (setControlLoading (Some stop) (setControlMsg "" s)).
Definition handleMarkThreat (s : State) : State :=
  fetch JETSON_MARK_THREAT_URL threat
    (setControlLoading (Some threat) (setControlMsg "" s)).

(** The handlers from the point where the awaited call has settled. *)
Definition handleStopTracking_settled (r : Settled unit) (s : State) : State :=
  let s1 := match r with
            | Resolved _ => setControlMsg "Stop tracking command sent successfully." s
            | Rejected _ =>
                setControlMsg
                  "Failed to send stop tracking command (Jetson API not reachable yet)." s
            end in
  setControlLoading None s1.
Definition handleMarkThreat_settled (r : Settled unit) (s : State) : State :=
  let s1 := match r with
            | Resolved _ => setControlMsg "Mark as threat command sent successfully." s
            | Rejected _ =>
                setControlMsg
                  "Failed to send mark threat command (Jetson API not reachable yet)." s
            end in
  setControlLoading None s1.

(** Both buttons carry [disabled={controlLoading !== null}]. *)
Definition buttons_disabled (s : State) : bool :=
  match controlLoading s with
  | Some _ => true
  | None => false
  end.

Inductive Event : Type :=
| ClickStopTracking
| ClickMarkThreat
| Fetched (id : nat) (outcome : Settled (Response unit)).

Definition step (s : State) (e : Event) : State :=
  match e with
  | ClickStopTracking => if buttons_disabled s then s else handleStopTracking s
  | ClickMarkThreat => if buttons_disabled s then s else handleMarkThreat s
  | Fetched id outcome =>
      match inflight s !! id with
      | None => s
      | Some stop =>
          handleStopTracking_settled (sendStopTracking_resume outcome) (settle_request id s)
      | Some threat =>
          handleMarkThreat_settled (sendMarkThreat_resume outcome) (settle_request id s)
      end
  end.

Definition run (s : State) (es : list Event) : State := foldl step s es.

End Commands.

(** ** The upload gate of the edge service

    The camera detector of the edge service ([camera_detector.py]) is
    described by the edge README only, so the gate is taken from the
    design's description of it. *)

Module UploadGate.







End UploadGate.

(** ** Statements the code is checked against *)

Module Statements.
Import Auth Aws.

(** Lazy expiry of a session that expires at [expiresAt]: a read of the
    token in browser [b], whose clock has reached [expiresAt], returns
    absent and leaves the storage as [logout] leaves it. *)
Definition lazy_expiry (expiresAt : Z) (b : Browser) : Prop :=
  expiresAt <= clock b ->
  (getToken b).1 = Resolved None /\
  (isAuthenticated b).1 = Resolved false /\
  (getToken b).2 = (logout b).2.

(** Single flight in state [s]: while a request is outstanding, a further
    fetch, by a poll of any schedule or by a manual refresh, passes no
    request to [fetch]. *)
Definition single_flight (s : Polling.State) : Prop :=
  Polling.inflight s <> ∅ ->
  forall h, Polling.sent (Polling.poll h s) = Polling.sent s /\
            Polling.sent (Polling.refreshDetections s) = Polling.sent s.

(** Stale-response suppression in state [s]: of two outstanding requests,
    once the answer to the one dispatched later has been applied, the
    answer to the one dispatched earlier does not change the snapshot. *)
Definition stale_suppressed (s : Polling.State) : Prop :=
  forall (older newer : nat) (fresh stale : Settled (Response GetDetectionsResponse)),
    (older < newer)%nat ->
    is_Some (Polling.inflight s !! older) ->
    is_Some (Polling.inflight s !! newer) ->
    Polling.detData
      (Polling.run s [Polling.Fetched newer fresh; Polling.Fetched older stale]) =
    Polling.detData (Polling.run s [Polling.Fetched newer fresh]).

(** Streaming is entered on signaling completion: in state [s], where
    [startStream] awaits [setRemoteDescription], the resolution of that
    promise makes the state [streaming]. *)
Definition streaming_on_signaling_completion (s : Stream.State) : Prop :=
  Stream.attempt s = Some Stream.AwaitSetRemoteDescription ->
  Stream.streamState (Stream.step s Stream.RemoteDescriptionSet) = Stream.streaming.

End Statements.

(** ** Invariants used in the proofs *)

Module Invariants.
Import Auth.

(** The two errors [authenticatedFetch] throws. *)
Definition no_token_error : Thrown :=
  ErrorObj "No authentication token found. Please login.".
Definition session_expired_error : Thrown :=
  ErrorObj "Session expired. Please login again.".

(** No token is stored, in either storage. *)
Definition signed_out (b : Browser) : Prop :=
  sessionStorage b !! TOKEN_KEY = None /\ localStorage b !! TOKEN_KEY = None.

(** Interval handles in use, by a timer or by an outstanding poll, were
    all returned by [setInterval] already. *)
Definition handles_fresh (s : Polling.State) : Prop :=
  (forall h, h ∈ Polling.timers s -> (h < Polling.nextTimer s)%nat) /\
  (forall id h, Polling.inflight s !! id = Some (Polling.FromPoll h) ->
                (h < Polling.nextTimer s)%nat).

(** The pending command and the outstanding requests agree: none of
    either, or one request, awaited by the handler of the pending kind. *)
Definition exclusive (s : Commands.State) : Prop :=
  match Commands.controlLoading s with
  | None => Commands.inflight s = ∅
  | Some k => exists id, Commands.inflight s = {[ id := k ]}
  end.

End Invariants.

(** ** The statement about errors that reach the caller *)

Module Rethrown.
Import Auth Aws Invariants.



End Rethrown.

(** ** A concrete session, used to exercise the statements *)

Module Scenario.
Import Auth Aws.

Definition signed_in : Browser :=
  mkBrowser {[ TOKEN_KEY := "abc"; USERNAME_KEY := "testuser" ]} ∅ 0.

(** An ok answer of the backend with one item, labelled [l]. *)
Definition answer_response (l : string) : Response GetDetectionsResponse :=
  mkResponse 200 "OK" (Resolved "")
    (Resolved (mkGetDetectionsResponse
                 (Some [mkHistoryItem (IsoText l) (Some 5%Q)
                          (Some [mkDetection l 1%Q]) None]))).
Definition answer (l : string) : Settled (Response GetDetectionsResponse) :=
  Resolved (answer_response l).

Definition unauthorized_response : Response GetDetectionsResponse :=
  mkResponse 401 "Unauthorized" (Resolved "") (Rejected (ErrorObj "no body")).


(** The component is mounted, its first refresh (request 0) is answered,
    and auto-refresh is switched on: the manual refresh (request 1) and
    the initial poll of schedule 0 (request 2) are outstanding. *)
Definition toggled_on : Polling.State :=
  Polling.run (Polling.mounted signed_in)
    [Polling.Fetched 0 (answer "first"); Polling.ClickAutoRefresh].

(** The stream has been started and the signaling exchange has come to
    the point where [setRemoteDescription] is awaited. *)
Definition answer_received : Stream.State :=
  Stream.run Stream.init
    [Stream.ClickStart true; Stream.OfferCreated; Stream.LocalDescriptionSet;
     Stream.OfferAnswered 200; Stream.AnswerParsed].

(** The same, once the peer connection has delivered a track with a
    stream and [play()] has been called on the video element. *)
Definition track_received : Stream.State :=
  Stream.run answer_received [Stream.Track 0 true].

End Scenario.

(** ** services/auth.ts: login *)

Module AuthLogin.
Import Auth Config.

Definition AWS_LOGIN_URL : string := AWS_BASE +:+ "/login".

Record LoginCredentials : Type := mkLoginCredentials {
  username : string;
  password : string;
}.

(** A field of a parsed JSON body, as [||] and the conversion to a string
    see it: missing, [null], a string, or another value (a number, a
    boolean, an array, an object), of which the truthiness and the text it
    converts to are kept: an empty array is truthy and converts to the
    empty text. *)
Inductive JsValue : Type :=
| JsUndefined
| JsNull
| JsString (s : string)
| JsOther (truthy : bool) (text : string).

Definition truthy_value (v : JsValue) : bool :=
  match v with
  | JsUndefined | JsNull => false
  | JsString s => negb (String.eqb s "")
  | JsOther t _ => t
  end.

(** [a || b] *)
Definition or_value (a b : JsValue) : JsValue :=
  if truthy_value a then a else b.

(** [new Error(v).message]: [v] converted to a string; empty when [v] is
    [undefined]. *)
Definition Error_message (v : JsValue) : string :=
  match v with
  | JsUndefined => ""
  | JsNull => "null"
  | JsString s => s
  | JsOther _ text => text
  end.

(** The parsed body of an answer of the login endpoint, a JSON value
    other than [null] (reading a field of [null] is a [TypeError], which
    is not modelled).  [error] and [message], which [login] reads with
    [||], hold any value; [access_token] is a string when present, as the
    type [LoginResponse] of the code has it. *)
Record LoginJson : Type := mkLoginJson {
  error : JsValue;
  message : JsValue;
  access_token : option string;
}.

Record LoginResponse : Type := mkLoginResponse {
  response_access_token : option string;
  response_username : string;
}.

(** The string a web storage keeps for a value: [undefined] is stored as
    the text "undefined". *)
Definition DOMString (v : option string) : string := default "undefined" v.

(** The [try] block of [login] from the point where [fetch] has settled. *)
Definition login_try (credentials : LoginCredentials)
    (fetched : Settled (Response LoginJson)) : Eff LoginResponse :=
  response ← await fetched;
  if negb (ok response)
  then
    error ← try_catch (await (json response))
              (fun _ => ret (mkLoginJson (JsString "Login failed") JsUndefined None));
    throw (ErrorObj
             (Error_message
                (or_value (AuthLogin.error error)
                   (or_value (message error)
                      (JsString ("Login failed: " +:+ pretty (status response)))))))
  else
    data ← await (json response);
    sessionStorage_setItem TOKEN_KEY (DOMString (access_token data));;
    sessionStorage_setItem USERNAME_KEY (username credentials);;
    ret (mkLoginResponse (access_token data) (username credentials)).

(** [login] from the point where [fetch] has settled: the [catch] block
    logs and throws the error again. *)
Definition login_resume (credentials : LoginCredentials)
    (fetched : Settled (Response LoginJson)) : Eff LoginResponse :=
  try_catch (login_try credentials fetched) (fun error => throw error).

(** The browser after the two [setItem] calls of [login]. *)
Definition signed_in_as (token user : string) (b : Browser) : Browser :=
  mkBrowser (<[USERNAME_KEY := user]> (<[TOKEN_KEY := token]> (sessionStorage b)))
    (localStorage b) (clock b).

End AuthLogin.

(** ** services/aws-authenticated.ts: history and image URLs *)

Module AwsHistory.
Import Auth Config Aws.

Definition AWS_IMAGE_GET_URL : string := AWS_BASE +:+ "/images/get".

(** An element of [Items] as [getHistory] reads it: the fields
    [getLatestDetections] reads, and [detection_id]. *)
Record HistoryRecord : Type := mkHistoryRecord {
  detection_id : string;
  fields : HistoryItem;
}.

Record GetHistoryResponse : Type := mkGetHistoryResponse {
  history_Items : option (list HistoryRecord);
}.

Record HistoryDisplayItem : Type := mkHistoryDisplayItem {
  id : string;
  display_timestamp : Timestamp;
  mainLabel : string;
  numDetections : nat;
  imageKey : option string;
}.

(** [item.detections?.[0]?.label || "Unknown"] *)
Definition main_label (ds : option (list Detection)) : string :=
  match ds with
  | Some (d :: _) => if String.eqb (label d) "" then "Unknown" else label d
  | Some [] | None => "Unknown"
  end.

(** [item.detections?.length || 0] *)
Definition num_detections (ds : option (list Detection)) : nat :=
  match ds with
  | Some l => length l
  | None => 0%nat
  end.

Definition to_display (item : HistoryRecord) : HistoryDisplayItem :=
  mkHistoryDisplayItem (detection_id item)
    (item_timestamp (fields item))
    (main_label (item_detections (fields item)))
    (num_detections (item_detections (fields item)))
    (item_image_key (fields item)).

(** The [try] block of [getHistory] from the point where [fetch] has
    settled. *)
Definition getHistory_try
    (fetched : Settled (Response GetHistoryResponse)) : Eff (list HistoryDisplayItem) :=
  res ← authenticatedFetch_response fetched;
  if negb (ok res)
  then
    errorText ← await (text res);
    throw (ErrorObj ("AWS /detections failed: " +:+ pretty (status res) +:+ " "
                     +:+ statusText res +:+ " - " +:+ errorText))
  else
    data ← await (json res);
    let items := nullish (history_Items data) [] in
    ret (to_display <$> items).

(** The [catch] block of [getHistory]. *)
Definition getHistory_catch (error : Thrown) : Eff (list HistoryDisplayItem) :=
  if is_login_error error then throw error else ret [].

(** [getHistory] against a remote that answers at once. *)
Definition getHistory
    (remote : Request -> Settled (Response GetHistoryResponse))
    : Eff (list HistoryDisplayItem) :=
  try_catch
    (req ← authenticatedFetch_request detections_url ∅;
     getHistory_try (remote req))
    getHistory_catch.

Record GetImageResponse : Type := mkGetImageResponse {
  url : option string;
}.

Section ImageUrl.

(** The serialisation of a query parameter by [URLSearchParams]. *)
Variable form_urlencode : string -> string.

Definition image_url (imageKey : string) : string :=
  AWS_IMAGE_GET_URL +:+ "?image_key=" +:+ form_urlencode imageKey
  +:+ "&jetson_id=" +:+ form_urlencode JETSON_ID.

(** The [try] block of [getImageUrl] from the point where [fetch] has
    settled. *)
Definition getImageUrl_try
    (fetched : Settled (Response GetImageResponse)) : Eff string :=
  res ← authenticatedFetch_response fetched;
  if negb (ok res)
  then
    errorText ← await (text res);
    throw (ErrorObj ("AWS /images/get failed: " +:+ pretty (status res) +:+ " "
                     +:+ statusText res +:+ " - " +:+ errorText))
  else
    data ← await (json res);
    match url data with
    | Some u => if truthy (url data) then ret u
                else throw (ErrorObj "No URL returned from AWS")
    | None => throw (ErrorObj "No URL returned from AWS")
    end.

(** [getImageUrl] against a remote that answers at once; its [catch]
    block logs and throws the error again. *)
Definition getImageUrl
    (remote : Request -> Settled (Response GetImageResponse))
    (imageKey : string) : Eff string :=
  try_catch
    (req ← authenticatedFetch_request (image_url imageKey) ∅;
     getImageUrl_try (remote req))
    (fun error => throw error).

End ImageUrl.

End AwsHistory.

(** ** services/api.ts *)

Module Api.
Import Auth Config.

(** A field of the parsed body that [getDetections] inspects: absent (or
    falsy), present but no array, or an array. *)
Inductive Field (R : Type) : Type :=
| Missing
| NoArray
| IsArray (l : list R).
Global Arguments Missing {R}.
Global Arguments NoArray {R}.
Global Arguments IsArray {R} l.

(** The parsed body: an array, an object with the two fields read,
    [null], or another primitive value. *)
Inductive Body (R : Type) : Type :=
| TopArray (l : list R)
| Object (detections Items : Field R)
| Null
| Primitive.
Global Arguments TopArray {R} l.
Global Arguments Object {R} detections Items.
Global Arguments Null {R}.
Global Arguments Primitive {R}.

Section WithEncoder.

Variable encodeURIComponent : string -> string.
Context {R : Type}.

Definition getDetections_url (jetsonId : string) : string :=
  AWS_DETECTIONS_URL +:+ "?jetson_id=" +:+ encodeURIComponent jetsonId.

(** "Handle different response formats" *)
Definition pick_detections (data : Body R) : Eff (list R) :=
  match data with
  | TopArray l => ret l
  | Object (IsArray l) _ => ret l
  | Object _ (IsArray l) => ret l
  | Object _ _ => ret []
  | Primitive => ret []
  | Null => throw (ErrorObj "Cannot read properties of null (reading 'detections')")
  end.

(** The [try] block of [getDetections] from the point where [fetch] has
    settled. *)
Definition getDetections_try (fetched : Settled (Response (Body R))) : Eff (list R) :=
  response ← authenticatedFetch_response fetched;
  if negb (ok response)
  then
    try_catch (await (json response);; ret tt) (fun _ => ret tt);;
    throw (ErrorObj ("Failed to fetch detections: " +:+ pretty (status response)))
  else
    data ← await (json response);
    pick_detections data.

(** [getDetections] against a remote that answers at once; its [catch]
    block logs and throws the error again. *)
Definition getDetections (remote : Request -> Settled (Response (Body R)))
    (jetsonId : string) : Eff (list R) :=
  try_catch
    (req ← authenticatedFetch_request (getDetections_url jetsonId) ∅;
     getDetections_try (remote req))
    (fun error => throw error).


Definition getImageUrl_url (imageKey : string) : string :=
  AwsHistory.AWS_IMAGE_GET_URL +:+ "?key=" +:+ encodeURIComponent imageKey.

(** [getImageUrl] of [api.ts] from the point where [fetch] has settled:
    [data.url] is returned as it is. *)
Definition getImageUrl_try
    (fetched : Settled (Response AwsHistory.GetImageResponse)) : Eff (option string) :=
  response ← authenticatedFetch_response fetched;
  if negb (ok response)
  then
    try_catch (await (json response);; ret tt) (fun _ => ret tt);;
    throw (ErrorObj ("Failed to get image URL: " +:+ pretty (status response)))
  else
    data ← await (json response);
    ret (AwsHistory.url data).

Definition getImageUrl
    (remote : Request -> Settled (Response AwsHistory.GetImageResponse))
    (imageKey : string) : Eff (option string) :=
  try_catch
    (req ← authenticatedFetch_request (getImageUrl_url imageKey) ∅;
     getImageUrl_try (remote req))
    (fun error => throw error).

End WithEncoder.

End Api.

(** ** pages/History.tsx *)

Module History.

Record BackendDetectionRecord : Type := mkBackendDetectionRecord {
  record_image_url : string;
  record_object_name : string;
  record_jetson_id : string;
  record_timestamp : string;
}.

Record HistoryDisplayItem : Type := mkHistoryDisplayItem {
  detection_id : string;
  timestamp : string;
  object_name : string;
  image_key : string;
  imageUrl : option string;
  imageLoading : option bool;
  imageError : option string;
}.

(** [s.substring(from, to)]: the bounds are put in order and the result
    stops where the string ends. *)
Definition js_substring (s : string) (from to : nat) : string :=
  String.substring (Nat.min from to) (Nat.max from to - Nat.min from to) s.

(** [parseTimestamp].  Its argument is a string, on which [substring]
    does not throw, so the [catch] block is never entered. *)
Definition parseTimestamp (timestamp : string) : string :=
  let datePart := js_substring timestamp 0 8 in
  let timePart := js_substring timestamp 9 15 in
  let year := js_substring datePart 0 4 in
  let month := js_substring datePart 4 6 in
  let day := js_substring datePart 6 8 in
  let hour := js_substring timePart 0 2 in
  let minute := js_substring timePart 2 4 in
  let second := js_substring timePart 4 6 in
  year +:+ "-" +:+ month +:+ "-" +:+ day +:+ "T"
  +:+ hour +:+ ":" +:+ minute +:+ ":" +:+ second +:+ "Z".

(** The transformation of a record in [loadDetections]. *)
Definition to_item (record : BackendDetectionRecord) : HistoryDisplayItem :=
  mkHistoryDisplayItem (record_timestamp record)
    (parseTimestamp (record_timestamp record))
    (record_object_name record)
    (record_image_url record)
    None None None.

Record State : Type := mkState {
  detections : list HistoryDisplayItem;
  loading : bool;
  error : option string;
}.

Definition init : State := mkState [] true None.

(** [loadDetections] up to [await getDetections()]. *)
Definition loadDetections_start (s : State) : State :=
  mkState (detections s) true None.

(** [loadDetections] from the point where [getDetections()] has settled. *)
Definition loadDetections_settled
    (r : Settled (list BackendDetectionRecord)) (s : State) : State :=
  match r with
  | Resolved records => mkState (to_item <$> records) false (error s)
  | Rejected (ErrorObj m) => mkState (detections s) false (Some m)
  | Rejected (OtherValue _) =>
      mkState (detections s) false (Some "Failed to load detections")
  end.

(** [setDetections(prev => prev.map(d => d.detection_id === detectionId
    ? f(d) : d))] *)
Definition update_item (detectionId : string)
    (f : HistoryDisplayItem -> HistoryDisplayItem) (s : State) : State :=
  mkState
    ((fun d => if String.eqb (detection_id d) detectionId then f d else d)
       <$> detections s)
    (loading s) (error s).

Definition with_error (e : string) (d : HistoryDisplayItem) : HistoryDisplayItem :=
  mkHistoryDisplayItem (detection_id d) (timestamp d) (object_name d) (image_key d)
    (imageUrl d) (imageLoading d) (Some e).
Definition with_loading (d : HistoryDisplayItem) : HistoryDisplayItem :=
  mkHistoryDisplayItem (detection_id d) (timestamp d) (object_name d) (image_key d)
    (imageUrl d) (Some true) None.
Definition with_url (u : option string) (d : HistoryDisplayItem) : HistoryDisplayItem :=
  mkHistoryDisplayItem (detection_id d) (timestamp d) (object_name d) (image_key d)
    u (Some false) (imageError d).
Definition with_failure (e : string) (d : HistoryDisplayItem) : HistoryDisplayItem :=
  mkHistoryDisplayItem (detection_id d) (timestamp d) (object_name d) (image_key d)
    (imageUrl d) (Some false) (Some e).
Definition with_broken_image (d : HistoryDisplayItem) : HistoryDisplayItem :=
  mkHistoryDisplayItem (detection_id d) (timestamp d) (object_name d) (image_key d)
    None (imageLoading d) (Some "Failed to load image").

(** [loadImage] up to [await getImageUrl(...)]: the new state and the
    image key whose URL is requested, if any. *)
Definition loadImage_start (detectionId : string) (s : State) : State * option string :=
  match List.find (fun d => String.eqb (detection_id d) detectionId) (detections s) with
  | None => (s, None)
  | Some detection =>
      if String.eqb (image_key detection) ""
      then (update_item detectionId
              (with_error "No image available for this detection") s, None)
      else (update_item detectionId with_loading s, Some (image_key detection))
  end.

(** [loadImage] from the point where [getImageUrl(...)] has settled. *)
Definition loadImage_settled (detectionId : string)
    (r : Settled (option string)) (s : State) : State :=
  match r with
  | Resolved u => update_item detectionId (with_url u) s
  | Rejected (ErrorObj m) => update_item detectionId (with_failure m) s
  | Rejected (OtherValue _) =>
      update_item detectionId (with_failure "Failed to load image") s
  end.

(** [onError] of the image of the item [detectionId]. *)
Definition image_onError (detectionId : string) (s : State) : State :=
  update_item detectionId with_broken_image s.

End History.

(** ** Invariants of the component state *)

Module Reachable.
Import Auth Aws.

(** The only interval that can be set is the one the cleanup of the
    auto-refresh effect holds, and the effect holds a cleanup exactly
    while auto-refresh is on. *)
Definition one_schedule (s : Polling.State) : Prop :=
  (forall h, h ∈ Polling.timers s -> Polling.stopPolling s = Some h) /\
  (Polling.autoRefresh s = true <-> is_Some (Polling.stopPolling s)).

(** Requests get identifiers that are not in use, and a manual refresh is
    outstanding exactly while [detectionsLoading], and then only one. *)
Definition one_refresh (s : Polling.State) : Prop :=
  (forall id, is_Some (Polling.inflight s !! id) ->
              (id < length (Polling.sent s))%nat) /\
  (Polling.detectionsLoading s = false ->
   forall id, Polling.inflight s !! id <> Some Polling.FromRefresh) /\
  (Polling.detectionsLoading s = true ->
   exists id, Polling.inflight s !! id = Some Polling.FromRefresh /\
              forall id', Polling.inflight s !! id' = Some Polling.FromRefresh ->
                          id' = id).

(** A request of the live view: to the detections endpoint, with a
    bearer token that is not empty. *)
Definition authenticated_request (req : Request) : Prop :=
  url req = detections_url /\
  exists t, t <> "" /\ headers req !! "Authorization" = Some ("Bearer " +:+ t).

(** While no call of [startStream] is suspended the state is anything;
    while one is, the state is [connecting] or [streaming], a peer
    connection exists, and what the video shows comes from a peer
    connection that exists. *)
Definition attempt_guarded (s : Stream.State) : Prop :=
  (Stream.attempt s <> None ->
   (Stream.streamState s = Stream.connecting \/
    Stream.streamState s = Stream.streaming) /\
   (0 < Stream.peers s)%nat) /\
  (forall pc, Stream.srcObject s = Some pc -> (pc < Stream.peers s)%nat) /\
  ((0 < Stream.plays s)%nat -> Stream.srcObject s <> None).

End Reachable.

(** * Properties *)

(** ** Session store and session guard *)

(** Unfolding of the monad and of the storage primitives. *)
Ltac eff :=
  repeat (progress
    (unfold Auth.getToken, Auth.isAuthenticated, Auth.getUsername, Auth.logout,
       Auth.login_store, Auth.authenticatedFetch, Auth.authenticatedFetch_request,
       Auth.authenticatedFetch_response,
       Auth.sessionStorage_getItem, Auth.localStorage_getItem,
       Auth.sessionStorage_setItem, Auth.sessionStorage_removeItem,
       Auth.localStorage_removeItem,
       mbind, mret, Eff_bind, Eff_ret, bind, ret, throw, await, try_catch in *;
     simpl in *)).

Section SessionStore.
Import Auth.

Lemma getToken_reads_only (b : Browser) : (getToken b).2 = b.
Proof. eff. by destruct (truthy (sessionStorage b !! TOKEN_KEY)). Qed.

Lemma truthy_nonempty (t : string) : t <> "" -> truthy (Some t) = true.
Proof.
  intros Ht. unfold truthy. destruct (String.eqb_spec t ""); [done | reflexivity].
Qed.

Lemma logout_storage (b : Browser) :
  (logout b).2 =
  mkBrowser (delete USERNAME_KEY (delete TOKEN_KEY (sessionStorage b)))
            (delete USERNAME_KEY (delete TOKEN_KEY (localStorage b))) (clock b).
Proof. reflexivity. Qed.

Lemma getToken_after_logout (b : Browser) :
  getToken (logout b).2 = (Resolved None, (logout b).2).
Proof.
  rewrite logout_storage. eff.
  rewrite lookup_delete_ne by done. rewrite lookup_delete_eq. simpl.
  rewrite lookup_delete_ne by done. by rewrite lookup_delete_eq.
Qed.

(** C1, as the code has it: a read of the token does not look at the
    clock.  Whatever the time of the read, [getToken] returns the token
    that [login] stored and [isAuthenticated] answers true, and the read
    leaves the browser as it was; the stored session goes away by
    [logout] only, after which the read returns absent. *)
Theorem getToken_ignores_clock (b : Browser) (t : string) (now : Z) :
  sessionStorage b !! TOKEN_KEY = Some t ->
  t <> "" ->
  let b' := mkBrowser (sessionStorage b) (localStorage b) now in
  getToken b' = (Resolved (Some t), b') /\
  isAuthenticated b' = (Resolved true, b') /\
  getToken (logout b').2 = (Resolved None, (logout b').2).
Proof.
  intros Hs Ht b'. split; [| split].
  - eff. rewrite Hs. by rewrite (truthy_nonempty t Ht).
  - eff. rewrite Hs. by rewrite (truthy_nonempty t Ht).
  - apply getToken_after_logout.
Qed.

Lemma getToken_ignores_clock_witness :
  let b := (login_store "eyJhbGciOi" "testuser" (mkBrowser ∅ ∅ 0)).2 in
  let b' := mkBrowser (sessionStorage b) (localStorage b) 3600001 in
  getToken b' = (Resolved (Some "eyJhbGciOi"), b') /\
  isAuthenticated b' = (Resolved true, b') /\
  getToken (logout b').2 = (Resolved None, (logout b').2).
Proof.
  apply (getToken_ignores_clock
           (login_store "eyJhbGciOi" "testuser" (mkBrowser ∅ ∅ 0)).2
           "eyJhbGciOi" 3600001).
  - reflexivity.
  - discriminate.
Defined.

(** C1, as stated, fails: one hour after a login at time 0 the token is
    still returned. *)
Lemma lazy_expiry_counterexample :
  ~ Statements.lazy_expiry 3600000
      (mkBrowser {[ TOKEN_KEY := "eyJhbGciOi"; USERNAME_KEY := "testuser" ]} ∅ 3600001).
Proof.
  unfold Statements.lazy_expiry. intros H.
  destruct H as [H _]; [simpl; lia |].
  vm_compute in H. discriminate H.
Qed.

(** The request [authenticatedFetch] sends when token [t] is stored. *)
Lemma authenticatedFetch_request_sends (u : string) (opts : gmap string string)
    (b : Browser) (t : string) :
  getToken b = (Resolved (Some t), b) ->
  t <> "" ->
  authenticatedFetch_request u opts b =
  (Resolved (mkRequest u (<["Authorization" := "Bearer " +:+ t]>
                            (opts ∪ {["Content-Type" := "application/json"]}))), b).
Proof.
  intros Hg Ht. unfold authenticatedFetch_request.
  unfold mbind, Eff_bind, bind. rewrite Hg.
  by rewrite (truthy_nonempty t Ht).
Qed.

Lemma authenticatedFetch_response_401 {J} (resp : Response J) (b : Browser) :
  status resp = 401 ->
  authenticatedFetch_response (Resolved resp) b =
  (Rejected (ErrorObj "Session expired. Please login again."), (logout b).2).
Proof. intros H. eff. rewrite H. reflexivity. Qed.

Lemma authenticatedFetch_response_other {J} (resp : Response J) (b : Browser) :
  status resp <> 401 ->
  authenticatedFetch_response (Resolved resp) b = (Resolved resp, b).
Proof.
  intros H. eff. destruct (Z.eqb_spec (status resp) 401); [done | reflexivity].
Qed.

Lemma authenticatedFetch_response_rejected {J} (e : Thrown) (b : Browser) :
  authenticatedFetch_response (J := J) (Rejected e) b = (Rejected e, b).
Proof. reflexivity. Qed.

(** C2: a call through [authenticatedFetch] with a token stored.  When
    the remote answers 401 the call fails with the session-expired error
    and the stored session is gone (both storages lose token and user
    name, so a later read of the token returns absent); when [fetch]
    itself fails, that error reaches the caller and the browser is left
    as it was; any other answer is returned, the browser left as it
    was. *)
Theorem authenticatedFetch_guard {J} (remote : Request -> Settled (Response J))
    (u : string) (opts : gmap string string) (b : Browser) (t : string) :
  getToken b = (Resolved (Some t), b) ->
  t <> "" ->
  let req := mkRequest u (<["Authorization" := "Bearer " +:+ t]>
                            (opts ∪ {["Content-Type" := "application/json"]})) in
  match remote req with
  | Resolved resp =>
      if status resp =? 401
      then authenticatedFetch remote u opts b =
             (Rejected (ErrorObj "Session expired. Please login again."), (logout b).2)
           /\ sessionStorage (logout b).2 !! TOKEN_KEY = None
           /\ localStorage (logout b).2 !! TOKEN_KEY = None
           /\ sessionStorage (logout b).2 !! USERNAME_KEY = None
           /\ localStorage (logout b).2 !! USERNAME_KEY = None
           /\ getToken (logout b).2 = (Resolved None, (logout b).2)
      else authenticatedFetch remote u opts b = (Resolved resp, b)
  | Rejected e => authenticatedFetch remote u opts b = (Rejected e, b)
  end.
Proof.
  intros Hg Ht req.
  assert (Hcall : authenticatedFetch remote u opts b =
                  authenticatedFetch_response (remote req) b).
  { unfold authenticatedFetch. unfold mbind at 1, Eff_bind, bind.
    by rewrite (authenticatedFetch_request_sends u opts b t Hg Ht). }
  rewrite Hcall. destruct (remote req) as [resp | e]; [| reflexivity].
  destruct (Z.eqb_spec (status resp) 401) as [H401 | Hne].
  - rewrite (authenticatedFetch_response_401 resp b H401).
    split; [reflexivity |]. rewrite logout_storage. simpl.
    repeat split.
    + rewrite lookup_delete_ne by done. apply lookup_delete_eq.
    + rewrite lookup_delete_ne by done. apply lookup_delete_eq.
    + apply lookup_delete_eq.
    + apply lookup_delete_eq.
    + rewrite <- logout_storage. apply getToken_after_logout.
  - by apply authenticatedFetch_response_other.
Qed.

Lemma authenticatedFetch_guard_witness :
  let b := mkBrowser {[ TOKEN_KEY := "abc"; USERNAME_KEY := "testuser" ]}
                     {[ TOKEN_KEY := "old" ]} 17 in
  let remote := fun _ : Request => Resolved (mkResponse (J := unit) 401 "Unauthorized"
                                               (Resolved "") (Resolved tt)) in
  authenticatedFetch remote "https://example.org/detections" ∅ b =
    (Rejected (ErrorObj "Session expired. Please login again."), (logout b).2)
  /\ sessionStorage (logout b).2 !! TOKEN_KEY = None
  /\ localStorage (logout b).2 !! TOKEN_KEY = None
  /\ sessionStorage (logout b).2 !! USERNAME_KEY = None
  /\ localStorage (logout b).2 !! USERNAME_KEY = None
  /\ getToken (logout b).2 = (Resolved None, (logout b).2).
Proof.
  intros b remote.
  apply (authenticatedFetch_guard remote "https://example.org/detections" ∅ b "abc").
  - reflexivity.
  - discriminate.
Defined.

End SessionStore.

(** ** getLatestDetections *)

Section LatestDetections.
Import Auth Aws.

Lemma ok_not_401 {J} (res : Response J) : ok res = true -> status res <> 401.
Proof. unfold ok. intros H. apply andb_prop in H as [_ H]. lia. Qed.


Lemma getLatestDetections_catch_login (e : Thrown) (b : Browser) :
  is_login_error e = true -> getLatestDetections_catch e b = (Rejected e, b).
Proof. intros H. unfold getLatestDetections_catch. by rewrite H. Qed.




End LatestDetections.

(** ** Polling: manual refresh and auto-refresh *)

Section PollingFacts.
Import Auth Aws Polling Invariants.

Lemma signed_out_getToken (b : Browser) :
  signed_out b -> getToken b = (Resolved None, b).
Proof. intros [Hs Hl]. eff. rewrite Hs. simpl. by rewrite Hl. Qed.

Lemma signed_out_logout (b : Browser) : signed_out (logout b).2.
Proof.
  rewrite logout_storage. split; simpl.
  - rewrite lookup_delete_ne by done. apply lookup_delete_eq.
  - rewrite lookup_delete_ne by done. apply lookup_delete_eq.
Qed.

Lemma authenticatedFetch_request_browser (u : string) (opts : gmap string string)
    (b : Browser) : (authenticatedFetch_request u opts b).2 = b.
Proof.
  unfold authenticatedFetch_request, mbind, Eff_bind, bind.
  pose proof (getToken_reads_only b) as H.
  destruct (getToken b) as [[[t |] | e] b']; simpl in H; subst; try reflexivity.
  simpl. by destruct (negb (String.eqb t "")).
Qed.

Lemma getLatestDetections_catch_browser (e : Thrown) (b : Browser) :
  (getLatestDetections_catch e b).2 = b.
Proof. unfold getLatestDetections_catch. by destruct (is_login_error e). Qed.

(** The start of a call never writes to the browser. *)
Lemma getLatestDetections_start_browser (b : Browser) :
  (getLatestDetections_start b).2 = b.
Proof.
  unfold getLatestDetections_start.
  pose proof (authenticatedFetch_request_browser detections_url ∅ b) as H.
  destruct (authenticatedFetch_request detections_url ∅ b) as [[req | e] b'];
    simpl in H; subst; [reflexivity |].
  pose proof (getLatestDetections_catch_browser e b) as H.
  by destruct (getLatestDetections_catch e b).
Qed.

Lemma getLatestDetections_start_signed_out (b : Browser) :
  signed_out b ->
  getLatestDetections_start b = (Finished (Rejected no_token_error), b).
Proof.
  intros Hb. unfold getLatestDetections_start, authenticatedFetch_request.
  unfold mbind, Eff_bind, bind. rewrite (signed_out_getToken b Hb). reflexivity.
Qed.

Lemma getLatestDetections_start_token (b : Browser) (t : string) :
  getToken b = (Resolved (Some t), b) -> t <> "" ->
  exists req, getLatestDetections_start b = (Dispatched req, b).
Proof.
  intros Hg Ht. unfold getLatestDetections_start.
  rewrite (authenticatedFetch_request_sends detections_url ∅ b t Hg Ht). eauto.
Qed.

(** The continuation of a call leaves the browser alone or logs out. *)
Lemma getLatestDetections_resume_browser
    (fetched : Settled (Response GetDetectionsResponse)) (b : Browser) :
  (getLatestDetections_resume fetched b).2 = b \/
  (getLatestDetections_resume fetched b).2 = (logout b).2.
Proof.
  unfold getLatestDetections_resume, try_catch, getLatestDetections_try.
  unfold mbind, Eff_bind, bind.
  destruct fetched as [res | e].
  - destruct (Z.eq_dec (status res) 401) as [H401 | Hne].
    + right. rewrite (authenticatedFetch_response_401 res b H401).
      apply getLatestDetections_catch_browser.
    + left. rewrite (authenticatedFetch_response_other res b Hne).
      destruct (ok res); simpl; unfold await.
      * destruct (json res) as [data | e]; [| apply getLatestDetections_catch_browser].
        by destruct (nullish (Items data) []).
      * destruct (text res) as [txt | e]; apply getLatestDetections_catch_browser.
  - left. rewrite authenticatedFetch_response_rejected.
    apply getLatestDetections_catch_browser.
Qed.

Lemma getLatestDetections_resume_401 (res : Response GetDetectionsResponse) (b : Browser) :
  status res = 401 ->
  getLatestDetections_resume (Resolved res) b =
  (Rejected session_expired_error, (logout b).2).
Proof.
  intros H. unfold getLatestDetections_resume, try_catch, getLatestDetections_try.
  unfold mbind at 1, Eff_bind, bind.
  by rewrite (authenticatedFetch_response_401 res b H).
Qed.

Lemma signed_out_resume (fetched : Settled (Response GetDetectionsResponse)) (b : Browser) :
  signed_out b -> signed_out (getLatestDetections_resume fetched b).2.
Proof.
  intros Hb. destruct (getLatestDetections_resume_browser fetched b) as [-> | ->];
    [done | apply signed_out_logout].
Qed.

(** *** Without a token nothing reaches the network *)

Lemma is_login_error_no_token : is_login_error no_token_error = true.
Proof. reflexivity. Qed.

Lemma is_login_error_session_expired : is_login_error session_expired_error = true.
Proof. reflexivity. Qed.

Lemma poll_signed_out (s : State) (h : nat) :
  signed_out (browser s) -> poll h s = clearInterval h s.
Proof.
  intros Hb. unfold poll, poll_start.
  rewrite (getLatestDetections_start_signed_out _ Hb). reflexivity.
Qed.

Lemma refreshDetections_signed_out (s : State) :
  signed_out (browser s) -> refreshDetections s = setDetectionsLoading false s.
Proof.
  intros Hb. unfold refreshDetections.
  change (browser (setDetectionsLoading true s)) with (browser s).
  rewrite (getLatestDetections_start_signed_out _ Hb). reflexivity.
Qed.

Lemma startDetectionPolling_signed_out (s : State) :
  signed_out (browser s) ->
  startDetectionPolling s = (clearInterval (nextTimer s) (setInterval s), nextTimer s).
Proof.
  intros Hb. unfold startDetectionPolling, poll_start.
  rewrite (getLatestDetections_start_signed_out _ Hb). reflexivity.
Qed.

(** One event in a signed-out browser: the browser stays signed out, no
    request is sent, and a cleared handle [h] stays cleared. *)
Lemma step_signed_out (s : State) (e : Event) (h : nat) :
  signed_out (browser s) -> (h ∉ timers s) -> (h < nextTimer s)%nat ->
  signed_out (browser (step s e)) /\ sent (step s e) = sent s /\
  (h ∉ timers (step s e)) /\ (h < nextTimer (step s e))%nat.
Proof.
  intros Hb Hh Hlt. destruct e as [| h' | id outcome | now]; simpl.
  - destruct (detectionsLoading s) eqn:Hl; [done |].
    unfold handleAutoRefreshToggle, autoRefresh_effect.
    destruct (autoRefresh s) eqn:Ha; simpl.
    + destruct (stopPolling s) as [h0 |] eqn:Hsp; simpl; rewrite ?Ha; simpl;
        split_and!; try done; set_solver.
    + rewrite (refreshDetections_signed_out s Hb). simpl.
      destruct (stopPolling s) as [h0 |] eqn:Hsp; simpl;
        rewrite startDetectionPolling_signed_out by done; simpl;
        split_and!; try done; try lia; set_solver.
  - destruct (decide (h' ∈ timers s)); [| done].
    rewrite (poll_signed_out s h' Hb). simpl. split_and!; try done. set_solver.
  - unfold on_fetched. destruct (inflight s !! id) as [o |]; [| done].
    simpl. pose proof (signed_out_resume outcome (browser s) Hb) as Hb'.
    destruct (getLatestDetections_resume outcome (browser s)) as [r b'].
    simpl in Hb'. destruct o as [h0 |]; simpl.
    + destruct r as [d | err]; simpl; [done |].
      destruct (is_login_error err); simpl; split_and!; try done. set_solver.
    + by destruct r.
  - done.
Qed.

Lemma run_signed_out (es : list Event) (s : State) (h : nat) :
  signed_out (browser s) -> (h ∉ timers s) -> (h < nextTimer s)%nat ->
  signed_out (browser (run s es)) /\ sent (run s es) = sent s /\
  h ∉ timers (run s es).
Proof.
  revert s. induction es as [| e es IH]; intros s Hb Hh Hlt; [done |].
  simpl. destruct (step_signed_out s e h Hb Hh Hlt) as (Hb' & Hs' & Hh' & Hlt').
  destruct (IH (step s e) Hb' Hh' Hlt') as (? & ? & ?).
  split_and!; try done. congruence.
Qed.

(** *** Interval handles are never reused *)

Ltac fresh_handles :=
  let h0 := fresh "h" in
  let id := fresh "id" in
  let Hin := fresh "Hin" in
  split; [intros h0 Hin | intros id h0 Hin]; simpl in *;
  try (by eauto);
  repeat (first
    [ rewrite elem_of_union in Hin
    | rewrite elem_of_difference in Hin
    | rewrite elem_of_singleton in Hin
    | rewrite lookup_insert_Some in Hin
    | rewrite lookup_delete_Some in Hin ]);
  naive_solver (eauto with lia).

Lemma handles_fresh_refreshDetections (s : State) :
  handles_fresh s -> handles_fresh (refreshDetections s).
Proof.
  intros [Ht Hi]. unfold refreshDetections.
  destruct (getLatestDetections_start (browser (setDetectionsLoading true s)))
    as [[req | r] b'].
  - fresh_handles.
  - destruct r; fresh_handles.
Qed.

Lemma handles_fresh_poll_settled (s : State) (h : nat) (r : Settled LiveDetections) :
  handles_fresh s -> handles_fresh (poll_settled h r s).
Proof.
  intros [Ht Hi]. destruct r as [d | err]; simpl; [fresh_handles |].
  destruct (is_login_error err); fresh_handles.
Qed.

Lemma handles_fresh_poll (s : State) (h : nat) :
  handles_fresh s -> (h < nextTimer s)%nat -> handles_fresh (poll h s).
Proof.
  intros [Ht Hi] Hlt. unfold poll, poll_start.
  destruct (getLatestDetections_start (browser s)) as [[req | r] b']; simpl.
  - fresh_handles.
  - apply handles_fresh_poll_settled. fresh_handles.
Qed.

Lemma handles_fresh_startDetectionPolling (s : State) :
  handles_fresh s ->
  handles_fresh (startDetectionPolling s).1 /\
  ((startDetectionPolling s).2 < nextTimer (startDetectionPolling s).1)%nat.
Proof.
  intros [Ht Hi]. unfold startDetectionPolling, poll_start.
  destruct (getLatestDetections_start (browser s)) as [[req | r] b']; simpl.
  - split; [fresh_handles | lia].
  - destruct r as [d | err]; simpl; [split; [fresh_handles | lia] |].
    destruct (is_login_error err); simpl; (split; [fresh_handles | lia]).
Qed.

Lemma handles_fresh_autoRefresh_effect (s : State) :
  handles_fresh s -> handles_fresh (autoRefresh_effect s).
Proof.
  intros Hs. unfold autoRefresh_effect.
  set (s1 := match stopPolling s with
             | Some h => set_stopPolling None (clearInterval h s)
             | None => s
             end).
  assert (H1 : handles_fresh s1).
  { subst s1. destruct Hs as [Ht Hi]. destruct (stopPolling s); [fresh_handles | done]. }
  destruct (autoRefresh s1); [| done].
  destruct (handles_fresh_startDetectionPolling s1 H1) as [[Ht Hi] _].
  destruct (startDetectionPolling s1) as [s2 h]. simpl in *. fresh_handles.
Qed.

Lemma handles_fresh_step (s : State) (e : Event) :
  handles_fresh s -> handles_fresh (step s e).
Proof.
  intros Hs. destruct e as [| h | id outcome | now]; simpl.
  - destruct (detectionsLoading s); [done |].
    unfold handleAutoRefreshToggle. apply handles_fresh_autoRefresh_effect.
    destruct (negb (autoRefresh s)).
    + destruct (handles_fresh_refreshDetections s Hs) as [Ht Hi]. fresh_handles.
    + destruct Hs as [Ht Hi]. fresh_handles.
  - destruct (decide (h ∈ timers s)) as [Hin |]; [| done].
    apply handles_fresh_poll; [done |]. by apply Hs.
  - unfold on_fetched. destruct (inflight s !! id) as [o |] eqn:Ho; [| done].
    destruct (getLatestDetections_resume outcome (browser (settle_request id s)))
      as [r b'].
    assert (H1 : handles_fresh (set_browser b' (settle_request id s))).
    { destruct Hs as [Ht Hi]. fresh_handles. }
    destruct o as [h |]; [by apply handles_fresh_poll_settled |].
    destruct H1 as [Ht Hi]. destruct r; fresh_handles.
  - destruct Hs as [Ht Hi]. fresh_handles.
Qed.

Lemma handles_fresh_run (es : list Event) (s : State) :
  handles_fresh s -> handles_fresh (run s es).
Proof.
  revert s. induction es as [| e es IH]; intros s Hs; [done |].
  simpl. apply IH. by apply handles_fresh_step.
Qed.

Lemma handles_fresh_mounted (b : Browser) : handles_fresh (mounted b).
Proof.
  unfold mounted. apply handles_fresh_refreshDetections.
  split; simpl; [set_solver | intros id h H; by rewrite lookup_empty in H].
Qed.

(** *** With a token every fetch reaches the network *)

Lemma poll_token (s : State) (t : string) (h : nat) :
  getToken (browser s) = (Resolved (Some t), browser s) -> t <> "" ->
  exists req,
    sent (poll h s) = (sent s ++ [req])%list /\
    inflight (poll h s) = <[length (sent s) := FromPoll h]> (inflight s) /\
    browser (poll h s) = browser s /\
    timers (poll h s) = timers s.
Proof.
  intros Hg Ht. unfold poll, poll_start.
  destruct (getLatestDetections_start_token (browser s) t Hg Ht) as [req ->].
  by exists req.
Qed.

Lemma refreshDetections_token (s : State) (t : string) :
  getToken (browser s) = (Resolved (Some t), browser s) -> t <> "" ->
  exists req,
    sent (refreshDetections s) = (sent s ++ [req])%list /\
    inflight (refreshDetections s) = <[length (sent s) := FromRefresh]> (inflight s).
Proof.
  intros Hg Ht. unfold refreshDetections.
  change (browser (setDetectionsLoading true s)) with (browser s).
  destruct (getLatestDetections_start_token (browser s) t Hg Ht) as [req ->].
  by exists req.
Qed.

Lemma ticks_token (n : nat) (s : State) (t : string) (h : nat) :
  getToken (browser s) = (Resolved (Some t), browser s) -> t <> "" ->
  h ∈ timers s ->
  let s' := run s (repeat (Tick h) n) in
  length (sent s') = (length (sent s) + n)%nat /\
  (forall i, (length (sent s) <= i < length (sent s) + n)%nat ->
             inflight s' !! i = Some (FromPoll h)) /\
  (forall i, (i < length (sent s))%nat -> inflight s' !! i = inflight s !! i) /\
  browser s' = browser s.
Proof.
  revert s. induction n as [| n IH]; intros s Hg Ht Hh; simpl.
  - split_and!; [lia | intros; lia | done | done].
  - destruct (decide (h ∈ timers s)); [| done].
    destruct (poll_token s t h Hg Ht) as (req & Hsent & Hin & Hb & Htm).
    destruct (IH (poll h s)) as (Hlen & Hnew & Hold & Hb').
    { by rewrite Hb. } { done. } { by rewrite Htm. }
    rewrite Hsent, length_app in Hlen, Hnew, Hold. simpl in *.
    split_and!.
    + lia.
    + intros i Hi. destruct (decide (i = length (sent s))) as [-> | Hne].
      * rewrite Hold by lia. rewrite Hin. apply lookup_insert_eq.
      * apply Hnew. lia.
    + intros i Hi. rewrite Hold by lia. rewrite Hin. apply lookup_insert_ne. lia.
    + congruence.
Qed.

Lemma on_fetched_applies (s : State) (id : nat) (o : Origin)
    (outcome : Settled (Response GetDetectionsResponse)) (d : LiveDetections) :
  inflight s !! id = Some o ->
  (getLatestDetections_resume outcome (browser s)).1 = Resolved d ->
  detData (on_fetched id outcome s) = d.
Proof.
  intros Ho Hr. unfold on_fetched. rewrite Ho.
  change (browser (settle_request id s)) with (browser s).
  destruct (getLatestDetections_resume outcome (browser s)) as [r b'].
  simpl in Hr. subst r. by destruct o.
Qed.

(** What the continuation resolves or rejects to depends on the browser
    through its clock only. *)
Lemma getLatestDetections_resume_clock
    (fetched : Settled (Response GetDetectionsResponse)) (b1 b2 : Browser) :
  clock b1 = clock b2 ->
  (getLatestDetections_resume fetched b1).1 = (getLatestDetections_resume fetched b2).1.
Proof.
  intros Hc.
  assert (Hcatch : forall e, (getLatestDetections_catch e b1).1 =
                             (getLatestDetections_catch e b2).1).
  { intros e. unfold getLatestDetections_catch, emptyDetections.
    destruct (is_login_error e); simpl; [done | by rewrite Hc]. }
  unfold getLatestDetections_resume, try_catch, getLatestDetections_try.
  unfold mbind, Eff_bind, bind.
  destruct fetched as [res | e].
  - destruct (Z.eq_dec (status res) 401) as [H401 | Hne].
    + rewrite !(authenticatedFetch_response_401 res _ H401).
      reflexivity.
    + rewrite !(authenticatedFetch_response_other res _ Hne).
      destruct (ok res); simpl; unfold await.
      * destruct (json res) as [data | e]; [| apply Hcatch].
        destruct (nullish (Items data) []); [| done].
        unfold emptyDetections. simpl. by rewrite Hc.
      * destruct (text res) as [txt | e]; apply Hcatch.
  - rewrite !authenticatedFetch_response_rejected. apply Hcatch.
Qed.

Lemma on_fetched_outstanding (s : State) (id : nat) (o : Origin)
    (outcome : Settled (Response GetDetectionsResponse)) :
  inflight s !! id = Some o ->
  inflight (on_fetched id outcome s) = delete id (inflight s) /\
  clock (browser (on_fetched id outcome s)) = clock (browser s).
Proof.
  intros Ho. unfold on_fetched. rewrite Ho.
  change (browser (settle_request id s)) with (browser s).
  pose proof (getLatestDetections_resume_browser outcome (browser s)) as Hb.
  destruct (getLatestDetections_resume outcome (browser s)) as [r b'].
  simpl in Hb.
  assert (Hc : clock b' = clock (browser s)) by (by destruct Hb as [-> | ->]).
  destruct o as [h0 |].
  - unfold poll_settled. destruct r as [d | err]; [done |].
    by destruct (is_login_error err).
  - by destruct r.
Qed.

(** C4, as the code has it: there is no single flight.  With a token
    stored, each firing of the interval passes a request of its own to
    [fetch], whatever is outstanding: [n] firings send [n] requests, each
    awaited by its own poll, the requests that were outstanding stay so;
    a manual refresh sends one more; and an answer settles the request it
    answers only. *)
Theorem every_fetch_sends_a_request (s : State) (t : string) (h n : nat) :
  getToken (browser s) = (Resolved (Some t), browser s) -> t <> "" ->
  h ∈ timers s ->
  let s' := run s (repeat (Tick h) n) in
  length (sent s') = (length (sent s) + n)%nat /\
  (forall i, (length (sent s) <= i < length (sent s) + n)%nat ->
             inflight s' !! i = Some (FromPoll h)) /\
  (forall i, (i < length (sent s))%nat -> inflight s' !! i = inflight s !! i) /\
  length (sent (refreshDetections s')) = S (length (sent s')) /\
  (forall id outcome, is_Some (inflight s' !! id) ->
     inflight (step s' (Fetched id outcome)) = delete id (inflight s')).
Proof.
  intros Hg Ht Hh s'.
  destruct (ticks_token n s t h Hg Ht Hh) as (Hlen & Hnew & Hold & Hb).
  fold s' in Hlen, Hnew, Hold, Hb. split_and!; try done.
  - destruct (refreshDetections_token s' t) as (req & -> & _).
    { by rewrite Hb. } { done. }
    rewrite length_app. simpl. lia.
  - intros id outcome [o Ho]. simpl.
    by destruct (on_fetched_outstanding s' id o outcome Ho).
Qed.

(** C5, as the code has it: an answer is applied when it arrives.  The
    snapshot that the continuation of [getLatestDetections] resolves to
    becomes the visible one, whichever outstanding request the answer
    belongs to; in particular, with two requests outstanding, the answer
    to the one dispatched earlier, arriving after the answer to the one
    dispatched later, replaces what that one has put in place. *)
Theorem answers_applied_on_arrival (s : State) (older newer : nat) (o o' : Origin)
    (fresh stale : Settled (Response GetDetectionsResponse)) (d : LiveDetections) :
  (older < newer)%nat ->
  inflight s !! older = Some o ->
  inflight s !! newer = Some o' ->
  (getLatestDetections_resume stale (browser s)).1 = Resolved d ->
  detData (step s (Fetched older stale)) = d /\
  detData (run s [Fetched newer fresh; Fetched older stale]) = d.
Proof.
  intros Hlt Ho Ho' Hr. split; [by apply (on_fetched_applies s older o) |].
  simpl. destruct (on_fetched_outstanding s newer o' fresh Ho') as [Hin Hc].
  apply (on_fetched_applies _ older o).
  - rewrite Hin. rewrite lookup_delete_ne by lia. done.
  - by rewrite (getLatestDetections_resume_clock stale _ (browser s) Hc).
Qed.

(** C3: a poll of the schedule with handle [h] is outstanding in a
    state the component can reach, and its request is answered 401.  Then
    a read of the token returns absent, the handle [h] is cleared, and
    through every later sequence of events no request is sent, [h] stays
    cleared, the token stays absent, and a firing of any interval leaves
    that interval cleared. *)
Theorem session_expired_stops_polling (b0 : Browser) (es0 : list Event)
    (id h : nat) (res : Response GetDetectionsResponse) (es : list Event) :
  let s := run (mounted b0) es0 in
  inflight s !! id = Some (FromPoll h) ->
  status res = 401 ->
  let s' := step s (Fetched id (Resolved res)) in
  let s'' := run s' es in
  getToken (browser s') = (Resolved None, browser s') /\
  (h ∉ timers s') /\
  sent s' = sent s /\
  sent s'' = sent s' /\
  (h ∉ timers s'') /\
  getToken (browser s'') = (Resolved None, browser s'') /\
  (forall h', h' ∉ timers (step s'' (Tick h'))).
Proof.
  intros s Ho H401 s' s''.
  assert (Hfresh : handles_fresh s) by apply handles_fresh_run, handles_fresh_mounted.
  assert (Hs' : s' = clearInterval h
                       (set_browser (logout (browser s)).2 (settle_request id s))).
  { subst s'. simpl. unfold on_fetched. rewrite Ho.
    change (browser (settle_request id s)) with (browser s).
    by rewrite (getLatestDetections_resume_401 res (browser s) H401). }
  assert (Hout : signed_out (browser s')).
  { rewrite Hs'. simpl. apply signed_out_logout. }
  assert (Hh : h ∉ timers s').
  { rewrite Hs'. simpl. set_solver. }
  assert (Hlt : (h < nextTimer s')%nat).
  { rewrite Hs'. simpl. destruct Hfresh as [_ Hi]. by apply (Hi id). }
  destruct (run_signed_out es s' h Hout Hh Hlt) as (Hout'' & Hsent'' & Hh'').
  fold s'' in Hout'', Hsent'', Hh''.
  split_and!; try done.
  - by apply signed_out_getToken.
  - by rewrite Hs'.
  - by apply signed_out_getToken.
  - intros h'. simpl. destruct (decide (h' ∈ timers s'')); [| done].
    rewrite (poll_signed_out s'' h' Hout''). simpl. set_solver.
Qed.

Lemma session_expired_stops_polling_witness :
  let s := Scenario.toggled_on in
  let s' := step s (Fetched 2 (Resolved Scenario.unauthorized_response)) in
  let s'' := run s' [Tick 0%nat; Fetched 1 (Scenario.answer "late");
                     ClickAutoRefresh; ClickAutoRefresh; Clock 5000] in
  getToken (browser s') = (Resolved None, browser s') /\
  (0%nat ∉ timers s') /\
  sent s' = sent s /\
  sent s'' = sent s' /\
  (0%nat ∉ timers s'') /\
  getToken (browser s'') = (Resolved None, browser s'') /\
  (forall h', h' ∉ timers (step s'' (Tick h'))).
Proof.
  apply (session_expired_stops_polling Scenario.signed_in
           [Fetched 0 (Scenario.answer "first"); ClickAutoRefresh]
           2%nat 0%nat Scenario.unauthorized_response).
  - vm_compute. reflexivity.
  - reflexivity.
Defined.

Lemma every_fetch_sends_a_request_witness :
  let s := Scenario.toggled_on in
  let s' := run s (repeat (Tick 0%nat) 2) in
  length (sent s') = (length (sent s) + 2)%nat /\
  (forall i, (length (sent s) <= i < length (sent s) + 2)%nat ->
             inflight s' !! i = Some (FromPoll 0)) /\
  (forall i, (i < length (sent s))%nat -> inflight s' !! i = inflight s !! i) /\
  length (sent (refreshDetections s')) = S (length (sent s')) /\
  (forall id outcome, is_Some (inflight s' !! id) ->
     inflight (step s' (Fetched id outcome)) = delete id (inflight s')).
Proof.
  apply (every_fetch_sends_a_request Scenario.toggled_on "abc" 0%nat 2%nat).
  - vm_compute. reflexivity.
  - discriminate.
  - apply (bool_decide_unpack (0%nat ∈ timers Scenario.toggled_on)).
    vm_compute. exact I.
Defined.

(** C4, as stated, fails: with the manual refresh and the initial poll
    outstanding, a firing of the interval sends a further request. *)
Lemma single_flight_counterexample : ~ Statements.single_flight Scenario.toggled_on.
Proof.
  intros H. destruct (H ltac:(intros E; apply (f_equal (lookup 1%nat)) in E;
                              vm_compute in E; discriminate E) 0%nat) as [Hp _].
  apply (f_equal length) in Hp. vm_compute in Hp. discriminate Hp.
Qed.

Lemma answers_applied_on_arrival_witness :
  let old := mkLiveDetections (IsoText "old") 5%Q [mkDetection "old" 1%Q] None in
  detData (step Scenario.toggled_on (Fetched 1 (Scenario.answer "old"))) = old /\
  detData (run Scenario.toggled_on
             [Fetched 2 (Scenario.answer "new"); Fetched 1 (Scenario.answer "old")]) = old.
Proof.
  apply (answers_applied_on_arrival Scenario.toggled_on 1%nat 2%nat
           FromRefresh (FromPoll 0) (Scenario.answer "new") (Scenario.answer "old")).
  - lia.
  - vm_compute. reflexivity.
  - vm_compute. reflexivity.
  - vm_compute. reflexivity.
Defined.

(** C5, as stated, fails: the answer to request 2 (the poll) is applied,
    then the answer to request 1 (the manual refresh, dispatched before
    it) arrives and replaces the snapshot. *)
Lemma stale_suppressed_counterexample : ~ Statements.stale_suppressed Scenario.toggled_on.
Proof.
  intros H.
  specialize (H 1%nat 2%nat (Scenario.answer "new") (Scenario.answer "old")).
  assert (Hd : detData (run Scenario.toggled_on
                          [Fetched 2 (Scenario.answer "new");
                           Fetched 1 (Scenario.answer "old")]) =
               detData (run Scenario.toggled_on [Fetched 2 (Scenario.answer "new")])).
  { apply H; [lia | |]; vm_compute; eauto. }
  apply (f_equal timestamp) in Hd. vm_compute in Hd. discriminate Hd.
Qed.

End PollingFacts.

(** ** The live stream *)

Section StreamFacts.
Import Stream.

Ltac stream_cases s e :=
  destruct s as [st err hv att pe so pl];
  destruct e as [c | | | status | | | | pc hs | played |];
  destruct st; destruct att as [[] |];
  unfold step, ontrack, startStream, startStream_catch, play_then, play_catch,
    onPlaying in *;
  simpl in *; repeat case_match; simpl in *.

(** C6: from [streaming] no event leads to [connecting]; [startStream],
    called or clicked while the state is [connecting] or [streaming],
    changes nothing; a step that enters [connecting] is a click on start
    in state [idle] or [error]; and a peer connection is created in those
    two states only. *)
Theorem no_streaming_to_connecting (s : State) (e : Event) :
  (streamState s = streaming -> streamState (step s e) <> connecting) /\
  (streamState s = connecting \/ streamState s = streaming ->
   forall c, startStream c s = s /\ step s (ClickStart c) = s) /\
  (streamState (step s e) = connecting -> streamState s <> connecting ->
   (streamState s = idle \/ streamState s = error) /\ e = ClickStart true) /\
  (peers (step s e) <> peers s -> streamState s = idle \/ streamState s = error).
Proof.
  split_and!.
  - intros Hs. stream_cases s e; congruence.
  - intros [Hs | Hs] c; unfold step, startStream; rewrite Hs; by destruct (attempt s).
  - intros Hc Hn. stream_cases s e; try congruence; try destruct c; simpl in *;
      try congruence; auto.
  - intros Hp. stream_cases s e; try congruence; auto.
Qed.

Lemma no_streaming_to_connecting_witness :
  let s := run Scenario.answer_received
             [RemoteDescriptionSet; Track 0 true; PlaySettled true] in
  streamState s = streaming /\
  streamState (step s (ClickStart true)) <> connecting /\
  step s (ClickStart true) = s /\
  startStream true Scenario.answer_received = Scenario.answer_received.
Proof.
  intros s.
  destruct (no_streaming_to_connecting s (ClickStart true)) as (H1 & H2 & _).
  destruct (no_streaming_to_connecting Scenario.answer_received (ClickStart true))
    as (_ & H3 & _).
  split_and!.
  - reflexivity.
  - apply H1. reflexivity.
  - apply H2. right. reflexivity.
  - apply H3. left. reflexivity.
Defined.

(** C7, as the code has it: the resolution of [setRemoteDescription]
    leaves the stream state as it is.  The state becomes [streaming] when
    the promise of a [play()] started by [ontrack] settles, fulfilled or
    rejected, or when the video element reports playing, and by no other
    event; [hasVideo] records whether playback was confirmed. *)
Theorem streaming_entered_on_track_playback (s : State) (e : Event) :
  streamState (step s RemoteDescriptionSet) = streamState s /\
  (streamState (step s e) = streaming -> streamState s <> streaming ->
   (exists played, e = PlaySettled played /\ plays s <> 0%nat) \/
   (e = VideoPlaying /\ srcObject s <> None)) /\
  (forall pc, (pc < peers s)%nat ->
     plays (step s (Track pc true)) = S (plays s) /\
     streamState (step s (Track pc true)) = streamState s) /\
  (plays s <> 0%nat -> forall played,
     streamState (step s (PlaySettled played)) = streaming /\
     hasVideo (step s (PlaySettled played)) = played || hasVideo s) /\
  (srcObject s <> None -> streamState (step s VideoPlaying) = streaming).
Proof.
  split_and!.
  - destruct s as [st err hv att pe so pl]. by destruct att as [[] |].
  - intros Hs Hn. stream_cases s e; try congruence; eauto.
  - intros pc Hpc. unfold step. destruct (decide (pc < peers s)%nat); [| lia].
    by destruct (attempt s).
  - intros Hp played. unfold step.
    destruct (plays s) as [| n] eqn:Hn; [done |].
    destruct played; by destruct (attempt s).
  - intros Hso. unfold step. destruct (srcObject s); [| done].
    by destruct (attempt s).
Qed.

Lemma streaming_entered_on_track_playback_witness :
  let s := run Scenario.answer_received [RemoteDescriptionSet; Track 0 true] in
  streamState s = connecting /\
  streamState (step s (PlaySettled false)) = streaming /\
  hasVideo (step s (PlaySettled false)) = false.
Proof.
  intros s.
  destruct (streaming_entered_on_track_playback s VideoPlaying) as (_ & _ & _ & H & _).
  split; [reflexivity |]. apply (H ltac:(discriminate) false).
Defined.

(** C7, as stated, fails: the track has arrived and [play()] is
    pending; when the awaited [setRemoteDescription] resolves the state
    is still [connecting]. *)
Lemma streaming_on_signaling_completion_counterexample :
  ~ Statements.streaming_on_signaling_completion Scenario.track_received.
Proof.
  intros H. specialize (H eq_refl). vm_compute in H. discriminate H.
Qed.

End StreamFacts.

(** ** Device commands *)

Section CommandFacts.
Import Config Commands Invariants.

Ltac settle_cases outcome :=
  simpl; unfold handleStopTracking_settled, handleMarkThreat_settled;
  destruct (sendStopTracking_resume outcome), (sendMarkThreat_resume outcome);
  simpl.

Lemma exclusive_init : exclusive init.
Proof. reflexivity. Qed.

Lemma exclusive_step (s : State) (e : Event) : exclusive s -> exclusive (step s e).
Proof.
  unfold exclusive. destruct e as [| | id outcome]; simpl.
  - unfold buttons_disabled. destruct (controlLoading s) eqn:Hc; simpl; intros Hs.
    + by rewrite Hc.
    + exists (length (sent s)). by rewrite Hs.
  - unfold buttons_disabled. destruct (controlLoading s) eqn:Hc; simpl; intros Hs.
    + by rewrite Hc.
    + exists (length (sent s)). by rewrite Hs.
  - destruct (inflight s !! id) as [k |] eqn:Hid; [| done].
    destruct (controlLoading s) as [k' |] eqn:Hc; intros Hs.
    + destruct Hs as [id' Hs]. rewrite Hs in Hid.
      apply lookup_singleton_Some in Hid as [-> ->].
      destruct k; settle_cases outcome; rewrite Hs; apply delete_singleton_eq.
    + rewrite Hs in Hid. by rewrite lookup_empty in Hid.
Qed.

Lemma exclusive_run (es : list Event) (s : State) : exclusive s -> exclusive (run s es).
Proof.
  revert s. induction es as [| e es IH]; intros s Hs; [done |].
  simpl. apply IH. by apply exclusive_step.
Qed.

Lemma exclusive_facts (s : State) :
  exclusive s ->
  (size (inflight s) <= 1)%nat /\
  (controlLoading s = None <-> inflight s = ∅) /\
  (forall k, controlLoading s = Some k ->
     step s ClickStopTracking = s /\ step s ClickMarkThreat = s) /\
  (forall id outcome, is_Some (inflight s !! id) ->
     let s' := step s (Fetched id outcome) in
     controlLoading s' = None /\ inflight s' = ∅ /\
     controlLoading (step s' ClickStopTracking) = Some stop /\
     sent (step s' ClickStopTracking) = (sent s ++ [JETSON_STOP_TRACKING_URL])%list /\
     controlLoading (step s' ClickMarkThreat) = Some threat /\
     sent (step s' ClickMarkThreat) = (sent s ++ [JETSON_MARK_THREAT_URL])%list).
Proof.
  unfold exclusive. destruct (controlLoading s) as [k' |] eqn:Hc; intros Hs.
  - destruct Hs as [id' Hs]. split_and!.
    + rewrite Hs. by rewrite map_size_singleton.
    + split; [done |]. intros He. rewrite He in Hs.
      apply (f_equal (lookup id')) in Hs.
      rewrite lookup_empty, lookup_singleton_eq in Hs. discriminate Hs.
    + intros k _. simpl. unfold buttons_disabled. by rewrite Hc.
    + intros id outcome [k Hid]. set (s' := step s (Fetched id outcome)).
      rewrite Hs in Hid. apply lookup_singleton_Some in Hid as [-> ->].
      assert (Hs' : controlLoading s' = None /\ inflight s' = ∅ /\ sent s' = sent s).
      { subst s'. simpl. rewrite Hs, lookup_singleton_eq.
        destruct k; settle_cases outcome; rewrite ?Hs; by rewrite ?delete_singleton_eq. }
      destruct Hs' as (Hc' & Hi' & Hsent'). split_and!; try done; simpl;
        unfold buttons_disabled; rewrite Hc'; simpl; by rewrite ?Hsent'.
  - split_and!.
    + rewrite Hs, map_size_empty. lia.
    + done.
    + intros k Hk. discriminate Hk.
    + intros id outcome [k Hid]. rewrite Hs in Hid. by rewrite lookup_empty in Hid.
Qed.

(** C8: in every state the control buttons can bring about, at most one
    command request is outstanding, and one is outstanding exactly when a
    command is pending.  While a command of either kind is pending, a
    click on either button changes nothing.  When the outstanding request
    settles, with whatever outcome, no command is pending and none is
    outstanding, and a click right after it is accepted: the command of
    the clicked kind becomes the pending one and its request is sent. *)
Theorem one_pending_command (es : list Event) :
  let s := run init es in
  (size (inflight s) <= 1)%nat /\
  (controlLoading s = None <-> inflight s = ∅) /\
  (forall k, controlLoading s = Some k ->
     step s ClickStopTracking = s /\ step s ClickMarkThreat = s) /\
  (forall id outcome, is_Some (inflight s !! id) ->
     let s' := step s (Fetched id outcome) in
     controlLoading s' = None /\ inflight s' = ∅ /\
     controlLoading (step s' ClickStopTracking) = Some stop /\
     sent (step s' ClickStopTracking) = (sent s ++ [JETSON_STOP_TRACKING_URL])%list /\
     controlLoading (step s' ClickMarkThreat) = Some threat /\
     sent (step s' ClickMarkThreat) = (sent s ++ [JETSON_MARK_THREAT_URL])%list).
Proof.
  intros s. apply exclusive_facts. apply exclusive_run, exclusive_init.
Qed.

Lemma one_pending_command_witness :
  let s := run init [ClickStopTracking; ClickMarkThreat] in
  let settled := Resolved (Auth.mkResponse 503 "Service Unavailable"
                             (Resolved "") (Resolved tt)) in
  controlLoading s = Some stop /\
  step s ClickMarkThreat = s /\
  controlLoading (step s (Fetched 0 settled)) = None /\
  controlLoading (step (step s (Fetched 0 settled)) ClickMarkThreat) = Some threat.
Proof.
  intros s settled.
  destruct (one_pending_command [ClickStopTracking; ClickMarkThreat])
    as (_ & _ & Hbusy & Hsettle).
  split; [reflexivity |]. split.
  - apply (Hbusy stop). reflexivity.
  - destruct (Hsettle 0%nat settled) as (H1 & _ & _ & _ & H2 & _).
    + exists stop. vm_compute. reflexivity.
    + split; [exact H1 | exact H2].
Defined.

End CommandFacts.

(** ** The upload gate *)

Section GateFacts.
Import UploadGate.










End GateFacts.

(** * Further properties of the services and pages *)

(** ** Login, logout and the token *)

Section LoginFacts.
Import Auth AuthLogin Invariants.

(** [login] writes to the browser only when it resolves.  It resolves
    only on an ok answer whose body parses, and then the session storage
    holds the token of the body and the user name of the credentials;
    when it rejects the browser is as it was.  The local storage is
    never written. *)
Theorem login_stores_only_on_success (credentials : LoginCredentials)
    (fetched : Settled (Response LoginJson)) (b : Browser) :
  match login_resume credentials fetched b with
  | (Resolved r, b') =>
      exists resp data,
        fetched = Resolved resp /\ ok resp = true /\ json resp = Resolved data /\
        r = mkLoginResponse (access_token data) (username credentials) /\
        b' = signed_in_as (DOMString (access_token data)) (username credentials) b
  | (Rejected _, b') => b' = b
  end.
Proof.
  unfold login_resume, login_try, try_catch, mbind, Eff_bind, bind, await.
  destruct fetched as [resp | e]; [| done]. simpl.
  destruct (ok resp) eqn:Hok; simpl.
  - destruct (json resp) as [data | e] eqn:Hj; [| done]. simpl.
    exists resp, data. by rewrite Hok.
  - by destruct (json resp).
Qed.

(** A login refused by the backend (an answer that is not ok) rejects
    with an [Error] and leaves the browser as it was.  The message is
    "Login failed" for a body that does not parse; for a body that parses
    it is the text of the first truthy one of its fields [error] and
    [message], and "Login failed: " with the status when neither is
    truthy.  So the message is not empty unless the field it is taken
    from is a truthy value that is not a string: for the body
    [{"error": []}] it is empty. *)
Theorem login_refused_message (credentials : LoginCredentials)
    (resp : Response LoginJson) (b : Browser) :
  ok resp = false ->
  exists m,
    login_resume credentials (Resolved resp) b = (Rejected (ErrorObj m), b) /\
    match json resp with
    | Resolved body =>
        m = (if truthy_value (AuthLogin.error body)
             then Error_message (AuthLogin.error body)
             else if truthy_value (message body)
                  then Error_message (message body)
                  else "Login failed: " +:+ pretty (status resp)) /\
        ((forall t txt, AuthLogin.error body <> JsOther t txt) ->
         (forall t txt, message body <> JsOther t txt) -> m <> "") /\
        (AuthLogin.error body = JsOther true "" -> m = "")
    | Rejected _ => m = "Login failed"
    end.
Proof.
  intros Hok.
  unfold login_resume, login_try, try_catch, mbind, Eff_bind, bind, await.
  simpl. rewrite Hok. simpl.
  destruct (json resp) as [body | e]; simpl; [| by eexists].
  eexists. split; [reflexivity |]. unfold or_value.
  destruct (AuthLogin.error body) as [| | s | [] txt];
    destruct (message body) as [| | s' | [] txt']; simpl;
    try destruct (String.eqb_spec s ""); try destruct (String.eqb_spec s' ""); simpl;
    (split_and!;
     [ reflexivity
     | intros H1 H2; try discriminate; try done;
       solve [ destruct (H1 _ _ eq_refl) | destruct (H2 _ _ eq_refl) ]
     | intros H3; try discriminate H3; by inversion H3 ]).
Qed.

Lemma login_refused_message_witness :
  let b := mkBrowser ∅ ∅ 0 in
  let refused body := Resolved (mkResponse 401 "Unauthorized" (Resolved "") body) in
  let credentials := mkLoginCredentials "testuser" "wrong" in
  login_resume credentials
    (refused (Resolved (mkLoginJson (JsString "") (JsString "Bad password") None))) b
  = (Rejected (ErrorObj "Bad password"), b) /\
  login_resume credentials
    (refused (Resolved (mkLoginJson JsUndefined JsUndefined None))) b
  = (Rejected (ErrorObj "Login failed: 401"), b) /\
  login_resume credentials
    (refused (Resolved (mkLoginJson (JsOther true "") JsUndefined None))) b
  = (Rejected (ErrorObj ""), b) /\
  login_resume credentials (refused (Rejected (ErrorObj "Unexpected end of JSON input"))) b
  = (Rejected (ErrorObj "Login failed"), b).
Proof.
  intros b refused credentials. split_and!.
  - destruct (login_refused_message credentials
                (mkResponse 401 "Unauthorized" (Resolved "")
                   (Resolved (mkLoginJson (JsString "") (JsString "Bad password") None))) b)
      as (m & Hr & Hm & _); [reflexivity |].
    simpl in Hm. subst m. exact Hr.
  - destruct (login_refused_message credentials
                (mkResponse 401 "Unauthorized" (Resolved "")
                   (Resolved (mkLoginJson JsUndefined JsUndefined None))) b)
      as (m & Hr & Hm & _); [reflexivity |].
    simpl in Hm. subst refused. simpl. rewrite Hr, Hm. vm_compute. reflexivity.
  - destruct (login_refused_message credentials
                (mkResponse 401 "Unauthorized" (Resolved "")
                   (Resolved (mkLoginJson (JsOther true "") JsUndefined None))) b)
      as (m & Hr & _ & _ & Hm); [reflexivity |].
    simpl in Hm. rewrite (Hm eq_refl) in Hr. exact Hr.
  - destruct (login_refused_message credentials
                (mkResponse 401 "Unauthorized" (Resolved "")
                   (Rejected (ErrorObj "Unexpected end of JSON input"))) b)
      as (m & Hr & Hm); [reflexivity |].
    simpl in Hm. subst m. exact Hr.
Defined.

Lemma login_resume_ok (credentials : LoginCredentials) (resp : Response LoginJson)
    (data : LoginJson) (b : Browser) :
  ok resp = true -> json resp = Resolved data ->
  login_resume credentials (Resolved resp) b =
  (Resolved (mkLoginResponse (access_token data) (username credentials)),
   signed_in_as (DOMString (access_token data)) (username credentials) b).
Proof.
  intros Hok Hj.
  unfold login_resume, login_try, try_catch, mbind, Eff_bind, bind, await.
  simpl. rewrite Hok. simpl. by rewrite Hj.
Qed.

Lemma getToken_signed_in_as (t user : string) (b : Browser) :
  t <> "" ->
  getToken (signed_in_as t user b) = (Resolved (Some t), signed_in_as t user b).
Proof.
  intros Ht. eff. rewrite lookup_insert_ne by done. rewrite lookup_insert_eq.
  by rewrite (truthy_nonempty t Ht).
Qed.

(** Login, then read: after a login that resolved with a token that is
    not empty, [getToken] returns that token, [isAuthenticated] answers
    true and [authenticatedFetch] sends its request with that token as
    bearer, whatever the two storages held before (a token left in the
    local storage is not used). *)
Theorem login_then_read (credentials : LoginCredentials) (resp : Response LoginJson)
    (data : LoginJson) (t : string) (b : Browser)
    (u : string) (opts : gmap string string) :
  ok resp = true -> json resp = Resolved data ->
  access_token data = Some t -> t <> "" ->
  let b' := (login_resume credentials (Resolved resp) b).2 in
  getToken b' = (Resolved (Some t), b') /\
  isAuthenticated b' = (Resolved true, b') /\
  exists req, authenticatedFetch_request u opts b' = (Resolved req, b') /\
              headers req !! "Authorization" = Some ("Bearer " +:+ t).
Proof.
  intros Hok Hj Ht Hne b'. subst b'.
  rewrite (login_resume_ok credentials resp data b Hok Hj). rewrite Ht. simpl.
  pose proof (getToken_signed_in_as t (username credentials) b Hne) as Hg.
  split_and!.
  - done.
  - unfold isAuthenticated, mbind, Eff_bind, bind. by rewrite Hg.
  - eexists. split.
    + apply (authenticatedFetch_request_sends u opts _ t Hg Hne).
    + simpl. apply lookup_insert_eq.
Qed.

Lemma login_then_read_witness :
  let b := mkBrowser ∅ {[ TOKEN_KEY := "stale" ]} 0 in
  let resp := mkResponse 200 "OK" (Resolved "")
                (Resolved (mkLoginJson JsUndefined JsUndefined (Some "fresh"))) in
  let b' := (login_resume (mkLoginCredentials "testuser" "pw") (Resolved resp) b).2 in
  getToken b' = (Resolved (Some "fresh"), b') /\
  isAuthenticated b' = (Resolved true, b') /\
  exists req, authenticatedFetch_request "https://example.org" ∅ b' = (Resolved req, b') /\
              headers req !! "Authorization" = Some "Bearer fresh".
Proof.
  intros b resp.
  apply (login_then_read (mkLoginCredentials "testuser" "pw") resp
           (mkLoginJson JsUndefined JsUndefined (Some "fresh")) "fresh" b).
  - reflexivity.
  - reflexivity.
  - reflexivity.
  - discriminate.
Defined.

(** An ok answer of the login endpoint whose body has no [access_token]
    still signs the user in: the text "undefined" is stored as the token,
    [isAuthenticated] answers true, and requests are sent with the bearer
    "undefined". *)
Theorem login_without_token (credentials : LoginCredentials)
    (resp : Response LoginJson) (data : LoginJson) (b : Browser)
    (u : string) (opts : gmap string string) :
  ok resp = true -> json resp = Resolved data -> access_token data = None ->
  let b' := (login_resume credentials (Resolved resp) b).2 in
  (login_resume credentials (Resolved resp) b).1 =
    Resolved (mkLoginResponse None (username credentials)) /\
  getToken b' = (Resolved (Some "undefined"), b') /\
  isAuthenticated b' = (Resolved true, b') /\
  exists req, authenticatedFetch_request u opts b' = (Resolved req, b') /\
              headers req !! "Authorization" = Some "Bearer undefined".
Proof.
  intros Hok Hj Ht b'. subst b'.
  rewrite (login_resume_ok credentials resp data b Hok Hj). rewrite Ht. simpl.
  assert (Hne : "undefined" <> "") by discriminate.
  pose proof (getToken_signed_in_as "undefined" (username credentials) b Hne) as Hg.
  split_and!.
  - done.
  - done.
  - unfold isAuthenticated, mbind, Eff_bind, bind. by rewrite Hg.
  - eexists. split.
    + apply (authenticatedFetch_request_sends u opts _ "undefined" Hg Hne).
    + simpl. apply lookup_insert_eq.
Qed.

Lemma login_without_token_witness :
  let b := mkBrowser ∅ ∅ 0 in
  let resp := mkResponse 200 "OK" (Resolved "{}")
                (Resolved (mkLoginJson JsUndefined JsUndefined None)) in
  let credentials := mkLoginCredentials "testuser" "pw" in
  let b' := (login_resume credentials (Resolved resp) b).2 in
  (login_resume credentials (Resolved resp) b).1 =
    Resolved (mkLoginResponse None "testuser") /\
  getToken b' = (Resolved (Some "undefined"), b') /\
  isAuthenticated b' = (Resolved true, b') /\
  exists req, authenticatedFetch_request "https://example.org" ∅ b' = (Resolved req, b') /\
              headers req !! "Authorization" = Some "Bearer undefined".
Proof.
  intros b resp credentials.
  apply (login_without_token credentials resp (mkLoginJson JsUndefined JsUndefined None) b);
    reflexivity.
Defined.

(** [logout] is idempotent; after it neither the token nor the user name
    can be read and [isAuthenticated] answers false, whatever the two
    storages held; every other key of both storages keeps its value. *)
Theorem logout_clears_session_only (b : Browser) :
  (logout (logout b).2).2 = (logout b).2 /\
  (getUsername (logout b).2).1 = Resolved None /\
  (isAuthenticated (logout b).2).1 = Resolved false /\
  (forall k, k <> TOKEN_KEY -> k <> USERNAME_KEY ->
     sessionStorage (logout b).2 !! k = sessionStorage b !! k /\
     localStorage (logout b).2 !! k = localStorage b !! k).
Proof.
  split_and!.
  - rewrite !logout_storage. simpl. f_equal; apply map_eq; intros k;
      rewrite !lookup_delete; repeat case_decide; naive_solver.
  - rewrite logout_storage. eff. rewrite lookup_delete_eq. simpl.
    by rewrite lookup_delete_eq.
  - unfold isAuthenticated, mbind, Eff_bind, bind.
    by rewrite getToken_after_logout.
  - intros k Hk Hu. rewrite logout_storage. simpl.
    by rewrite !lookup_delete_ne.
Qed.

Lemma logout_clears_session_only_witness :
  let b := mkBrowser {[ TOKEN_KEY := "abc"; USERNAME_KEY := "testuser"; "theme" := "dark" ]}
                     {[ TOKEN_KEY := "old"; "lang" := "nl" ]} 0 in
  sessionStorage (logout b).2 !! "theme" = Some "dark" /\
  localStorage (logout b).2 !! "lang" = Some "nl" /\
  (isAuthenticated (logout b).2).1 = Resolved false.
Proof.
  intros b. destruct (logout_clears_session_only b) as (_ & _ & Ha & Hk).
  destruct (Hk "theme" ltac:(discriminate) ltac:(discriminate)) as [H1 _].
  destruct (Hk "lang" ltac:(discriminate) ltac:(discriminate)) as [_ H2].
  split_and!.
  - rewrite H1. reflexivity.
  - rewrite H2. reflexivity.
  - exact Ha.
Defined.

End LoginFacts.

(** ** Tokens and requests *)

Section RequestFacts.
Import Auth Invariants.

Lemma authenticatedFetch_request_result (u : string) (opts : gmap string string)
    (b : Browser) :
  authenticatedFetch_request u opts b = (Rejected no_token_error, b) \/
  exists t, t <> "" /\
    authenticatedFetch_request u opts b =
    (Resolved (mkRequest u (<["Authorization" := "Bearer " +:+ t]>
                              (opts ∪ {["Content-Type" := "application/json"]}))), b).
Proof.
  unfold authenticatedFetch_request, getToken, sessionStorage_getItem,
    localStorage_getItem, mbind, Eff_bind, bind, ret, throw. simpl.
  destruct (truthy (sessionStorage b !! TOKEN_KEY)) eqn:Hs; simpl.
  - destruct (sessionStorage b !! TOKEN_KEY) as [t |]; [| done].
    rewrite Hs. right. exists t. split; [| done].
    intros ->. discriminate Hs.
  - destruct (localStorage b !! TOKEN_KEY) as [t |]; [| by left]. simpl.
    destruct (String.eqb_spec t ""); simpl; [by left |].
    right. by exists t.
Qed.

(** [authenticatedFetch] up to [fetch]: the browser is only read.  With
    a stored token that is not empty the request goes to the given URL
    and carries that token as bearer under the name [Authorization],
    whatever the options; called without headers in the options, as
    every caller does, it carries that header and the JSON content type
    and no other.  With no token, or an empty one, the call throws the
    no-token error and nothing is sent. *)
Theorem authenticatedFetch_request_cases (u : string) (opts : gmap string string)
    (b : Browser) :
  (authenticatedFetch_request u opts b).2 = b /\
  match (getToken b).1 with
  | Resolved (Some t) =>
      if String.eqb t ""
      then (authenticatedFetch_request u opts b).1 = Rejected no_token_error
      else exists req,
             (authenticatedFetch_request u opts b).1 = Resolved req /\
             url req = u /\
             headers req !! "Authorization" = Some ("Bearer " +:+ t) /\
             (opts = ∅ ->
              forall k v, headers req !! k = Some v <->
                          (k = "Authorization" /\ v = "Bearer " +:+ t) \/
                          (k = "Content-Type" /\ v = "application/json"))
  | _ => (authenticatedFetch_request u opts b).1 = Rejected no_token_error
  end.
Proof.
  split; [apply authenticatedFetch_request_browser |].
  assert (Hg : exists o, getToken b = (Resolved o, b)).
  { unfold getToken, sessionStorage_getItem, localStorage_getItem,
      mbind, Eff_bind, bind, ret.
    destruct (truthy (sessionStorage b !! TOKEN_KEY)); eauto. }
  destruct Hg as [o Hg].
  unfold authenticatedFetch_request, mbind, Eff_bind, bind. rewrite Hg. simpl.
  destruct o as [t |]; [| done]. simpl.
  destruct (String.eqb t ""); simpl; [done |].
  eexists. split; [reflexivity |]. simpl. split_and!.
  - done.
  - apply lookup_insert_eq.
  - intros -> k v. rewrite (left_id ∅ (∪)).
    rewrite lookup_insert_Some, lookup_singleton_Some. naive_solver.
Qed.

Lemma authenticatedFetch_request_cases_witness :
  let b := mkBrowser {[ TOKEN_KEY := "abc" ]} ∅ 0 in
  exists req,
    (authenticatedFetch_request "https://example.org/x" ∅ b).1 = Resolved req /\
    url req = "https://example.org/x" /\
    headers req !! "Authorization" = Some "Bearer abc" /\
    headers req !! "Content-Type" = Some "application/json" /\
    headers req !! "content-type" = None.
Proof.
  intros b.
  destruct (authenticatedFetch_request_cases "https://example.org/x" ∅ b)
    as [_ (req & Hr & Hu & Ha & Hh)].
  specialize (Hh eq_refl).
  exists req. split_and!.
  - exact Hr.
  - exact Hu.
  - exact Ha.
  - apply Hh. by right.
  - destruct (headers req !! "content-type") as [v |] eqn:Hv; [| done].
    apply Hh in Hv as [[Hk _] | [Hk _]]; discriminate Hk.
Defined.

(** [isAuthenticated] and [authenticatedFetch] disagree in one case
    only: [isAuthenticated] answers true while [authenticatedFetch] throws
    the no-token error exactly when the token read is the empty string,
    which is when the local storage holds an empty token and the session
    storage holds none or an empty one. *)
Theorem authenticated_without_usable_token (u : string) (opts : gmap string string)
    (b : Browser) :
  ((isAuthenticated b).1 = Resolved true /\
   (authenticatedFetch_request u opts b).1 = Rejected no_token_error)
  <-> (truthy (sessionStorage b !! TOKEN_KEY) = false /\
       localStorage b !! TOKEN_KEY = Some "").
Proof.
  unfold isAuthenticated, authenticatedFetch_request, getToken,
    sessionStorage_getItem, localStorage_getItem, mbind, Eff_bind, bind, ret, throw.
  simpl. destruct (truthy (sessionStorage b !! TOKEN_KEY)) eqn:Hs; simpl.
  - destruct (sessionStorage b !! TOKEN_KEY) as [t |]; [| done].
    rewrite Hs. simpl. split; [intros [_ H]; discriminate H | intros [H _]; discriminate H].
  - destruct (localStorage b !! TOKEN_KEY) as [t |]; simpl.
    + destruct (String.eqb_spec t "") as [-> | Hne]; simpl.
      * by split.
      * split; [intros [_ H]; discriminate H | intros [_ H]; congruence].
    + split; [intros [H _]; discriminate H | intros [_ H]; discriminate H].
Qed.

Lemma authenticated_without_usable_token_witness :
  let b := mkBrowser ∅ {[ TOKEN_KEY := "" ]} 0 in
  (isAuthenticated b).1 = Resolved true /\
  (authenticatedFetch_request "https://example.org/x" ∅ b).1 = Rejected no_token_error.
Proof.
  intros b. apply (authenticated_without_usable_token "https://example.org/x" ∅ b).
  split; reflexivity.
Defined.

End RequestFacts.

(** ** Errors that count as authentication errors *)

Section LoginErrorFacts.
Import Auth Aws Invariants.

Lemma string_app_assoc (a b c : string) : (a +:+ b) +:+ c = a +:+ (b +:+ c).
Proof.
  induction a as [| x a IH]; [done |].
  change (String x ((a +:+ b) +:+ c) = String x (a +:+ (b +:+ c))).
  by rewrite IH.
Qed.

Lemma prefix_spec (p s : string) :
  String.prefix p s = true <-> exists post, s = p +:+ post.
Proof.
  revert s. induction p as [| x p IH]; intros s.
  - split; [intros _; exists s; reflexivity | intros _; by destruct s].
  - destruct s as [| y s].
    + split; [discriminate | intros [post H]; discriminate H].
    + change (String.prefix (String x p) (String y s))
        with (if Ascii.ascii_dec x y then String.prefix p s else false).
      destruct (Ascii.ascii_dec x y) as [-> | Hne].
      * rewrite IH. split; intros [post H]; exists post.
        -- change (String y s = String y (p +:+ post)). by rewrite H.
        -- change (String y s = String y (p +:+ post)) in H. by inversion H.
      * split; [discriminate |]. intros [post H].
        change (String y s = String x (p +:+ post)) in H. inversion H. congruence.
Qed.

Lemma includes_spec (hay needle : string) :
  includes hay needle = true <-> exists pre post, hay = pre +:+ needle +:+ post.
Proof.
  induction hay as [| x hay IH].
  - change (includes "" needle) with (String.prefix needle "" || false).
    rewrite orb_false_r, prefix_spec. split.
    + intros [post H]. exists "", post. exact H.
    + intros (pre & post & H). destruct pre as [| y pre]; [by exists post |].
      discriminate H.
  - change (includes (String x hay) needle)
      with (String.prefix needle (String x hay) || includes hay needle).
    rewrite orb_true_iff, prefix_spec, IH. split.
    + intros [[post H] | (pre & post & H)].
      * exists "", post. exact H.
      * exists (String x pre), post.
        change (String x hay = String x (pre +:+ needle +:+ post)). by rewrite H.
    + intros (pre & post & H). destruct pre as [| y pre].
      * left. exists post. exact H.
      * right. exists pre, post.
        change (String x hay = String y (pre +:+ needle +:+ post)) in H.
        by inversion H.
Qed.

(** What [getLatestDetections], [getHistory] and [poll] take for an
    authentication error: an [Error] whose message has "login" somewhere
    in it, and nothing else.  Both errors of [authenticatedFetch] are
    such errors. *)
Theorem is_login_error_spec (e : Thrown) :
  (is_login_error e = true <->
   exists pre post, e = ErrorObj (pre +:+ "login" +:+ post)) /\
  is_login_error no_token_error = true /\
  is_login_error session_expired_error = true.
Proof.
  split; [| by split]. destruct e as [m | v]; simpl.
  - rewrite includes_spec. split; intros (pre & post & H); exists pre, post;
      [by rewrite H | by inversion H].
  - split; [done | intros (pre & post & H); discriminate H].
Qed.

Lemma is_login_error_spec_witness :
  is_login_error (ErrorObj "AWS /detections failed: 403 Forbidden - login required")
  = true.
Proof.
  destruct (is_login_error_spec
              (ErrorObj "AWS /detections failed: 403 Forbidden - login required"))
    as [[_ H] _].
  apply H. by exists "AWS /detections failed: 403 Forbidden - ", " required".
Defined.

Lemma includes_app_r (a hay needle : string) :
  includes hay needle = true -> includes (a +:+ hay) needle = true.
Proof.
  rewrite !includes_spec. intros (pre & post & ->).
  exists (a +:+ pre), post. by rewrite string_app_assoc.
Qed.

Lemma getLatestDetections_resume_not_ok (res : Response GetDetectionsResponse)
    (txt : string) (b : Browser) :
  status res <> 401 -> ok res = false -> text res = Resolved txt ->
  getLatestDetections_resume (Resolved res) b =
  getLatestDetections_catch
    (ErrorObj ("AWS /detections failed: " +:+ pretty (status res) +:+ " "
               +:+ statusText res +:+ " - " +:+ txt)) b.
Proof.
  intros Hne Hok Ht.
  unfold getLatestDetections_resume, try_catch, getLatestDetections_try.
  unfold mbind, Eff_bind, bind.
  rewrite (authenticatedFetch_response_other res b Hne). rewrite Hok. simpl.
  unfold await. by rewrite Ht.
Qed.

(** An answer that is neither ok nor 401 and whose body text has "login"
    in it is taken for an authentication error: [getLatestDetections]
    rejects instead of falling back, without logging out, and a poll that
    awaits it clears its interval, while the snapshot and the stored
    token stay as they are. *)
Theorem error_body_with_login_stops_polling (s : Polling.State) (id h : nat)
    (res : Response GetDetectionsResponse) (txt : string) :
  Polling.inflight s !! id = Some (Polling.FromPoll h) ->
  status res <> 401 -> ok res = false -> text res = Resolved txt ->
  includes txt "login" = true ->
  let s' := Polling.step s (Polling.Fetched id (Resolved res)) in
  (exists e, getLatestDetections_resume (Resolved res) (Polling.browser s) =
             (Rejected e, Polling.browser s)) /\
  (h ∉ Polling.timers s') /\
  Polling.browser s' = Polling.browser s /\
  Polling.detData s' = Polling.detData s.
Proof.
  intros Ho Hne Hok Ht Hinc s'.
  assert (Hr : getLatestDetections_resume (Resolved res) (Polling.browser s) =
               (Rejected (ErrorObj ("AWS /detections failed: " +:+ pretty (status res)
                                    +:+ " " +:+ statusText res +:+ " - " +:+ txt)),
                Polling.browser s)).
  { rewrite (getLatestDetections_resume_not_ok res txt _ Hne Hok Ht).
    apply getLatestDetections_catch_login. simpl.
    rewrite <- !string_app_assoc. by apply includes_app_r. }
  split; [eauto |]. subst s'. simpl. unfold Polling.on_fetched. rewrite Ho.
  change (Polling.browser (Polling.settle_request id s)) with (Polling.browser s).
  rewrite Hr. unfold Polling.poll_settled.
  replace (is_login_error _) with true.
  - simpl. split_and!; [set_solver | done | done].
  - symmetry. simpl. rewrite <- !string_app_assoc. by apply includes_app_r.
Qed.

Lemma error_body_with_login_stops_polling_witness :
  let res := mkResponse 500 "Internal Server Error"
               (Resolved "upstream login service unavailable")
               (Rejected (ErrorObj "not JSON")) in
  let s' := Polling.step Scenario.toggled_on (Polling.Fetched 2 (Resolved res)) in
  (exists e, getLatestDetections_resume (Resolved res)
               (Polling.browser Scenario.toggled_on) =
             (Rejected e, Polling.browser Scenario.toggled_on)) /\
  (0%nat ∉ Polling.timers s') /\
  Polling.browser s' = Polling.browser Scenario.toggled_on /\
  Polling.detData s' = Polling.detData Scenario.toggled_on.
Proof.
  intros res.
  apply (error_body_with_login_stops_polling Scenario.toggled_on 2%nat 0%nat res
           "upstream login service unavailable").
  - vm_compute. reflexivity.
  - discriminate.
  - reflexivity.
  - reflexivity.
  - vm_compute. reflexivity.
Defined.

End LoginErrorFacts.

(** ** Detections, history and image URLs *)

Section BackendFacts.
Import Auth Aws AwsHistory Invariants.

Lemma try_catch_rethrow {A} (m : Eff A) (b : Browser) :
  try_catch m (fun error => throw error) b = m b.
Proof. unfold try_catch, throw. by destruct (m b) as [[a | e] b']. Qed.

Lemma getLatestDetections_split
    (remote : Request -> Settled (Response GetDetectionsResponse)) (b : Browser)
    (req : Request) :
  authenticatedFetch_request detections_url ∅ b = (Resolved req, b) ->
  getLatestDetections remote b = getLatestDetections_resume (remote req) b.
Proof.
  intros Hreq. unfold getLatestDetections, getLatestDetections_resume, try_catch.
  unfold mbind at 1, Eff_bind, bind. by rewrite Hreq.
Qed.

Lemma getLatestDetections_resume_keeps
    (fetched : Settled (Response GetDetectionsResponse)) (b : Browser) :
  (forall res, fetched = Resolved res -> status res <> 401) ->
  (getLatestDetections_resume fetched b).2 = b.
Proof.
  intros Hne.
  unfold getLatestDetections_resume, try_catch, getLatestDetections_try.
  unfold mbind, Eff_bind, bind.
  destruct fetched as [res | e].
  - rewrite (authenticatedFetch_response_other res b (Hne res eq_refl)).
    destruct (ok res); simpl; unfold await.
    + destruct (json res) as [data | e]; [| apply getLatestDetections_catch_browser].
      by destruct (nullish (Items data) []).
    + destruct (text res) as [txt | e]; apply getLatestDetections_catch_browser.
  - rewrite authenticatedFetch_response_rejected.
    apply getLatestDetections_catch_browser.
Qed.

(** [getLatestDetections] and the session: without a usable token the
    call rejects with the no-token error and nothing is sent; when the
    remote answers 401 the call rejects with the session-expired error
    and the browser is logged out; in every other case, whether the call
    resolves to data or to the fallback, the browser is as it was. *)
Theorem getLatestDetections_session
    (remote : Request -> Settled (Response GetDetectionsResponse)) (b : Browser) :
  match authenticatedFetch_request detections_url ∅ b with
  | (Rejected _, _) => getLatestDetections remote b = (Rejected no_token_error, b)
  | (Resolved req, _) =>
      match remote req with
      | Resolved res =>
          if status res =? 401
          then getLatestDetections remote b =
               (Rejected session_expired_error, (logout b).2)
          else (getLatestDetections remote b).2 = b
      | Rejected _ => (getLatestDetections remote b).2 = b
      end
  end.
Proof.
  destruct (authenticatedFetch_request_result detections_url ∅ b)
    as [Hreq | (t & _ & Hreq)]; rewrite Hreq.
  - unfold getLatestDetections, try_catch.
    unfold mbind at 1, Eff_bind, bind. rewrite Hreq. reflexivity.
  - rewrite (getLatestDetections_split remote b _ Hreq).
    destruct (remote _) as [res | e].
    + destruct (Z.eqb_spec (status res) 401) as [H401 | Hne].
      * by apply getLatestDetections_resume_401.
      * apply getLatestDetections_resume_keeps. intros res0 H. by inversion H; subst.
    + apply getLatestDetections_resume_keeps. intros res0 H. discriminate H.
Qed.




(** [getHistory] and errors: an error that is not an authentication
    error gives the empty list; the call rejects only with an
    authentication error. *)
Theorem getHistory_fallback (remote : Request -> Settled (Response GetHistoryResponse))
    (b : Browser) :
  let attempt : Eff (list HistoryDisplayItem) :=
    req ← authenticatedFetch_request detections_url ∅;
    getHistory_try (remote req) in
  (forall e b', attempt b = (Rejected e, b') -> is_login_error e = false ->
                getHistory remote b = (Resolved [], b')) /\
  (forall e b', getHistory remote b = (Rejected e, b') -> is_login_error e = true).
Proof.
  intros attempt. unfold getHistory, try_catch. fold attempt. split.
  - intros e b' Ha Hl. rewrite Ha. unfold getHistory_catch. by rewrite Hl.
  - intros e b' Hr. destruct (attempt b) as [[l | e0] b0]; [discriminate |].
    unfold getHistory_catch in Hr. destruct (is_login_error e0) eqn:Hl.
    + by inversion Hr; subst.
    + discriminate Hr.
Qed.

Lemma getHistory_fallback_witness :
  let unreachable := fun _ : Request =>
    Rejected (A := Response GetHistoryResponse) (ErrorObj "Failed to fetch") in
  getHistory unreachable Scenario.signed_in = (Resolved [], Scenario.signed_in).
Proof.
  intros unreachable.
  destruct (getHistory_fallback unreachable Scenario.signed_in) as [H _].
  apply (H (ErrorObj "Failed to fetch")); reflexivity.
Defined.

(** [getImageUrl] of [aws-authenticated.ts] resolves exactly on an ok
    answer whose body has a [url] that is not empty, and to that URL; in
    every other case it rejects: there is no fallback and an empty URL is
    never returned. *)
Theorem getImageUrl_resolves_iff (form_urlencode : string -> string)
    (remote : Request -> Settled (Response GetImageResponse))
    (imageKey : string) (b : Browser) (u : string) :
  (getImageUrl form_urlencode remote imageKey b).1 = Resolved u <->
  exists req res data,
    authenticatedFetch_request (image_url form_urlencode imageKey) ∅ b
      = (Resolved req, b) /\
    remote req = Resolved res /\ ok res = true /\ json res = Resolved data /\
    url data = Some u /\ u <> "".
Proof.
  unfold getImageUrl. rewrite try_catch_rethrow.
  unfold mbind at 1, Eff_bind, bind.
  pose proof (authenticatedFetch_request_browser
                (image_url form_urlencode imageKey) ∅ b) as Hb.
  destruct (authenticatedFetch_request (image_url form_urlencode imageKey) ∅ b)
    as [[req | e] b']; simpl in Hb; subst b'.
  2: { split; [discriminate | intros (? & ? & ? & H & _); discriminate H]. }
  unfold getImageUrl_try. unfold mbind at 1, Eff_bind, bind.
  destruct (remote req) as [res | e] eqn:Hrem.
  2: { rewrite authenticatedFetch_response_rejected. simpl.
       split; [discriminate |]. intros (r0 & res0 & d0 & H & Hr & _).
       inversion H; subst. congruence. }
  destruct (Z.eq_dec (status res) 401) as [H401 | Hne].
  { rewrite (authenticatedFetch_response_401 res b H401). simpl.
    split; [discriminate |]. intros (r0 & res0 & d0 & H & Hr & Hok & _).
    inversion H; subst. rewrite Hrem in Hr. inversion Hr; subst.
    by apply ok_not_401 in Hok. }
  rewrite (authenticatedFetch_response_other res b Hne).
  destruct (ok res) eqn:Hok; simpl; unfold mbind, Eff_bind, bind, await.
  - destruct (json res) as [data | e] eqn:Hj; simpl.
    + destruct (url data) as [u0 |] eqn:Hu; simpl.
      * destruct (String.eqb_spec u0 "") as [-> | Hu0]; simpl.
        -- split; [discriminate |]. intros (r0 & res0 & d0 & H & Hr & _ & Hj0 & Hu1 & Hn).
           inversion H; subst. rewrite Hrem in Hr. inversion Hr; subst.
           rewrite Hj in Hj0. inversion Hj0; subst. congruence.
        -- split.
           ++ intros H. inversion H; subst. by exists req, res, data.
           ++ intros (r0 & res0 & d0 & H & Hr & _ & Hj0 & Hu1 & Hn).
              inversion H; subst. rewrite Hrem in Hr. inversion Hr; subst.
              rewrite Hj in Hj0. inversion Hj0; subst. congruence.
      * split; [discriminate |]. intros (r0 & res0 & d0 & H & Hr & _ & Hj0 & Hu1 & Hn).
        inversion H; subst. rewrite Hrem in Hr. inversion Hr; subst.
        rewrite Hj in Hj0. inversion Hj0; subst. congruence.
    + split; [discriminate |]. intros (r0 & res0 & d0 & H & Hr & _ & Hj0 & _).
      inversion H; subst. rewrite Hrem in Hr. inversion Hr; subst. congruence.
  - destruct (text res) as [txt | e]; simpl;
      (split; [discriminate |]; intros (r0 & res0 & d0 & H & Hr & Hok0 & _);
       inversion H; subst; rewrite Hrem in Hr; inversion Hr; subst; congruence).
Qed.

Lemma getImageUrl_resolves_iff_witness :
  let remote := fun _ : Request =>
    Resolved (mkResponse 200 "OK" (Resolved "")
                (Resolved (mkGetImageResponse (Some "https://s3/x.jpg")))) in
  (getImageUrl (fun s => s) remote "x.jpg" Scenario.signed_in).1
  = Resolved "https://s3/x.jpg".
Proof.
  intros remote.
  apply (getImageUrl_resolves_iff (fun s => s) remote "x.jpg" Scenario.signed_in).
  eexists _, _, _. split_and!; try reflexivity. discriminate.
Defined.

End BackendFacts.

(** ** services/api.ts and the history page *)

Section ApiFacts.
Import Auth AwsHistory Api Invariants.

Context {R : Type}.
Variable encodeURIComponent : string -> string.

(** [getDetections] on an ok answer accepts three shapes of body: an
    array; an object whose [detections] is an array, which is then taken
    even when [Items] is an array too; an object whose [Items] is an
    array.  Any other object or primitive value gives the empty list, not
    an error; a [null] body makes the call reject. *)
Theorem getDetections_formats (remote : Request -> Settled (Response (Body R)))
    (jetsonId : string) (b : Browser) (req : Request) (res : Response (Body R))
    (data : Body R) :
  authenticatedFetch_request (getDetections_url encodeURIComponent jetsonId) ∅ b
    = (Resolved req, b) ->
  remote req = Resolved res -> ok res = true -> json res = Resolved data ->
  match data with
  | TopArray l | Object (IsArray l) _ =>
      getDetections encodeURIComponent remote jetsonId b = (Resolved l, b)
  | Object Missing (IsArray l) | Object NoArray (IsArray l) =>
      getDetections encodeURIComponent remote jetsonId b = (Resolved l, b)
  | Object _ _ | Primitive =>
      getDetections encodeURIComponent remote jetsonId b = (Resolved [], b)
  | Null =>
      exists e, getDetections encodeURIComponent remote jetsonId b = (Rejected e, b)
  end.
Proof.
  intros Hreq Hrem Hok Hj.
  assert (H : getDetections encodeURIComponent remote jetsonId b
              = pick_detections data b).
  { unfold getDetections. rewrite try_catch_rethrow.
    unfold mbind at 1, Eff_bind, bind. rewrite Hreq, Hrem.
    unfold getDetections_try. unfold mbind at 1, Eff_bind, bind.
    rewrite (authenticatedFetch_response_other res b (ok_not_401 res Hok)).
    rewrite Hok. simpl. unfold mbind, Eff_bind, bind, await. by rewrite Hj. }
  rewrite H.
  destruct data as [l | [| | l] [| | l'] | |];
    first [reflexivity | eexists; reflexivity].
Qed.



End ApiFacts.

Section ApiWitnesses.
Import Auth AwsHistory Api.

Lemma getDetections_formats_witness :
  let remote := fun _ : Request =>
    Resolved (mkResponse 200 "OK" (Resolved "")
                (Resolved (Object (IsArray [1%nat; 2%nat]) (IsArray [3%nat])))) in
  getDetections (fun s => s) remote "jetson_nano_01" Scenario.signed_in
  = (Resolved [1%nat; 2%nat], Scenario.signed_in).
Proof.
  intros remote.
  eapply (getDetections_formats (fun s => s) remote "jetson_nano_01"
            Scenario.signed_in _ _
            (Object (IsArray [1%nat; 2%nat]) (IsArray [3%nat])));
    reflexivity.
Defined.


End ApiWitnesses.

Section HistoryFacts.
Import History.

(** [parseTimestamp] on a timestamp of the backend's format, eight
    digits of date, a separator, six digits of time and whatever follows:
    the result is the ISO text made of these parts, the rest is
    dropped. *)
Theorem parseTimestamp_format (year month day hour minute second sep rest : string) :
  String.length year = 4%nat -> String.length month = 2%nat ->
  String.length day = 2%nat -> String.length sep = 1%nat ->
  String.length hour = 2%nat -> String.length minute = 2%nat ->
  String.length second = 2%nat ->
  parseTimestamp (year +:+ month +:+ day +:+ sep +:+ hour +:+ minute +:+ second +:+ rest)
  = year +:+ "-" +:+ month +:+ "-" +:+ day +:+ "T"
    +:+ hour +:+ ":" +:+ minute +:+ ":" +:+ second +:+ "Z".
Proof.
  intros Hy Hmo Hd Hs Hh Hmi Hse.
  destruct year as [| y1 [| y2 [| y3 [| y4 [| ? ?]]]]]; try discriminate Hy.
  destruct month as [| m1 [| m2 [| ? ?]]]; try discriminate Hmo.
  destruct day as [| d1 [| d2 [| ? ?]]]; try discriminate Hd.
  destruct sep as [| s1 [| ? ?]]; try discriminate Hs.
  destruct hour as [| h1 [| h2 [| ? ?]]]; try discriminate Hh.
  destruct minute as [| i1 [| i2 [| ? ?]]]; try discriminate Hmi.
  destruct second as [| c1 [| c2 [| ? ?]]]; try discriminate Hse.
  by destruct rest.
Qed.

Lemma parseTimestamp_format_witness :
  parseTimestamp "20260119-133442-681725" = "2026-01-19T13:34:42Z".
Proof.
  apply (parseTimestamp_format "2026" "01" "19" "13" "34" "42" "-" "-681725");
    reflexivity.
Defined.

(** The list built by [loadDetections] has one item per record, in
    order; the identifier of an item is the raw timestamp of its record
    and its image key is the record's [image_url].  So the identifiers
    are pairwise distinct exactly when the timestamps of the records
    are. *)
Theorem loadDetections_identifiers (records : list BackendDetectionRecord) (s : State) :
  let s' := loadDetections_settled (Resolved records) (loadDetections_start s) in
  detection_id <$> detections s' = record_timestamp <$> records /\
  image_key <$> detections s' = record_image_url <$> records /\
  (NoDup (detection_id <$> detections s') <-> NoDup (record_timestamp <$> records)) /\
  loading s' = false /\ error s' = None.
Proof.
  simpl. assert (H : detection_id <$> (to_item <$> records)
                     = record_timestamp <$> records)
    by (by rewrite <- list_fmap_compose).
  split_and!; try done.
  - by rewrite <- list_fmap_compose.
  - by rewrite H.
Qed.

Lemma loadDetections_identifiers_witness :
  let records := [mkBackendDetectionRecord "a.jpg" "person" "j1" "20260119-133442-1";
                  mkBackendDetectionRecord "b.jpg" "book" "j1" "20260119-133442-1"] in
  let s := loadDetections_settled (Resolved records) (loadDetections_start init) in
  ~ NoDup (detection_id <$> detections s).
Proof.
  intros records s.
  destruct (loadDetections_identifiers records init) as (_ & _ & [H _] & _).
  intros Hnd. apply H in Hnd. apply NoDup_cons in Hnd as [Hnin _].
  apply Hnin. apply list_elem_of_singleton. reflexivity.
Defined.

Lemma update_item_ids (detectionId : string)
    (f : HistoryDisplayItem -> HistoryDisplayItem) (s : State) :
  (forall d, detection_id (f d) = detection_id d) ->
  detection_id <$> detections (update_item detectionId f s)
  = detection_id <$> detections s.
Proof.
  intros Hf. unfold update_item. simpl. rewrite <- list_fmap_compose.
  apply list_fmap_ext. intros i d _. simpl.
  destruct (String.eqb (detection_id d) detectionId); [apply Hf | done].
Qed.

Lemma update_item_others (detectionId : string)
    (f : HistoryDisplayItem -> HistoryDisplayItem) (s : State)
    (i : nat) (d : HistoryDisplayItem) :
  detections s !! i = Some d -> detection_id d <> detectionId ->
  detections (update_item detectionId f s) !! i = Some d.
Proof.
  intros Hi Hne. unfold update_item. simpl. rewrite list_lookup_fmap, Hi. simpl.
  destruct (String.eqb_spec (detection_id d) detectionId); [done | reflexivity].
Qed.

Lemma update_item_this (detectionId : string)
    (f : HistoryDisplayItem -> HistoryDisplayItem) (s : State)
    (i : nat) (d : HistoryDisplayItem) :
  detections s !! i = Some d -> detection_id d = detectionId ->
  detections (update_item detectionId f s) !! i = Some (f d).
Proof.
  intros Hi He. unfold update_item. simpl. rewrite list_lookup_fmap, Hi. simpl.
  destruct (String.eqb_spec (detection_id d) detectionId); [reflexivity | done].
Qed.

(** [loadImage], from its start to the settling of [getImageUrl], and
    the [onError] of an image keep the list as long as it was, with the
    same identifiers in the same order, and leave every item with
    another identifier exactly as it was. *)
Theorem loadImage_touches_one_id (detectionId : string) (s : State)
    (r : Settled (option string)) :
  let s1 := (loadImage_start detectionId s).1 in
  let s2 := loadImage_settled detectionId r s1 in
  let s3 := image_onError detectionId s2 in
  detection_id <$> detections s1 = detection_id <$> detections s /\
  detection_id <$> detections s2 = detection_id <$> detections s /\
  detection_id <$> detections s3 = detection_id <$> detections s /\
  (forall i d, detections s !! i = Some d -> detection_id d <> detectionId ->
     detections s1 !! i = Some d /\ detections s2 !! i = Some d /\
     detections s3 !! i = Some d).
Proof.
  intros s1 s2 s3.
  assert (H1 : detection_id <$> detections s1 = detection_id <$> detections s).
  { subst s1. unfold loadImage_start.
    destruct (List.find _ (detections s)) as [d |]; [| done].
    destruct (String.eqb (image_key d) ""); simpl; by apply update_item_ids. }
  assert (H2 : detection_id <$> detections s2 = detection_id <$> detections s).
  { rewrite <- H1. subst s2. unfold loadImage_settled.
    destruct r as [u | [m | v]]; by apply update_item_ids. }
  assert (O1 : forall i d, detections s !! i = Some d -> detection_id d <> detectionId ->
                           detections s1 !! i = Some d).
  { intros i d Hi Hne. subst s1. unfold loadImage_start.
    destruct (List.find _ (detections s)) as [d0 |]; [| done].
    destruct (String.eqb (image_key d0) ""); simpl; by apply update_item_others. }
  assert (O2 : forall i d, detections s !! i = Some d -> detection_id d <> detectionId ->
                           detections s2 !! i = Some d).
  { intros i d Hi Hne. subst s2. unfold loadImage_settled.
    destruct r as [u | [m | v]]; apply update_item_others; auto. }
  split_and!; try done.
  - rewrite <- H2. subst s3. by apply update_item_ids.
  - intros i d Hi Hne. split_and!; auto.
    subst s3. apply update_item_others; auto.
Qed.

Lemma loadImage_touches_one_id_witness :
  let s := loadDetections_settled
             (Resolved [mkBackendDetectionRecord "a.jpg" "person" "j1" "20260119-133442-1";
                        mkBackendDetectionRecord "b.jpg" "book" "j1" "20260119-133443-2"])
             (loadDetections_start init) in
  let s2 := loadImage_settled "20260119-133442-1" (Resolved (Some "https://s3/a"))
              (loadImage_start "20260119-133442-1" s).1 in
  detections s2 !! 1%nat = detections s !! 1%nat.
Proof.
  intros s s2.
  destruct (loadImage_touches_one_id "20260119-133442-1" s
              (Resolved (Some "https://s3/a"))) as (_ & _ & _ & H).
  destruct (H 1%nat (to_item (mkBackendDetectionRecord "b.jpg" "book" "j1"
                                "20260119-133443-2"))) as (_ & H2 & _).
  - reflexivity.
  - discriminate.
  - subst s2. rewrite H2. reflexivity.
Defined.

(** Loading an image, start to end.  For an item that is in the list
    with an image key: the key is what is requested, and while the
    request is outstanding the item is marked loading without an error.
    When [getImageUrl] resolves, every item with that identifier has the
    URL it resolved to and is no longer loading; when the body had no
    [url] this leaves the item without image and without error.  For an
    item with an empty image key nothing is requested and the item gets
    the no-image error. *)
Theorem loadImage_outcome (detectionId : string) (s : State) (i : nat)
    (d : HistoryDisplayItem) (u : option string) :
  detections s !! i = Some d -> detection_id d = detectionId ->
  NoDup (detection_id <$> detections s) ->
  (image_key d <> "" ->
   let start := loadImage_start detectionId s in
   start.2 = Some (image_key d) /\
   detections start.1 !! i = Some (with_loading d) /\
   detections (loadImage_settled detectionId (Resolved u) start.1) !! i
   = Some (mkHistoryDisplayItem (detection_id d) (timestamp d) (object_name d)
             (image_key d) u (Some false) None)) /\
  (image_key d = "" ->
   let start := loadImage_start detectionId s in
   start.2 = None /\
   detections start.1 !! i
   = Some (with_error "No image available for this detection" d)).
Proof.
  intros Hi Hid Hnd.
  assert (Hfind : List.find (fun d0 => String.eqb (detection_id d0) detectionId)
                    (detections s) = Some d).
  { clear u. revert i Hi Hnd. induction (detections s) as [| d0 l IH]; intros i Hi Hnd.
    - by rewrite lookup_nil in Hi.
    - simpl. destruct (String.eqb_spec (detection_id d0) detectionId) as [He | Hne].
      + destruct i as [| i]; [by inversion Hi |]. simpl in Hi.
        rewrite fmap_cons in Hnd. apply NoDup_cons in Hnd as [Hnin _].
        exfalso. apply Hnin. apply list_elem_of_fmap. exists d. split; [congruence |].
        by apply list_elem_of_lookup_2 in Hi.
      + destruct i as [| i]; [inversion Hi; congruence |].
        simpl in Hi. rewrite fmap_cons in Hnd. apply NoDup_cons in Hnd as [_ Hnd].
        by apply (IH i). }
  split.
  - intros Hk start. subst start. unfold loadImage_start. rewrite Hfind.
    destruct (String.eqb_spec (image_key d) ""); [done |]. simpl.
    pose proof (update_item_this detectionId with_loading s i d Hi Hid) as H1.
    split_and!; try done.
    exact (update_item_this detectionId (with_url u) _ i (with_loading d) H1 Hid).
  - intros Hk start. subst start. unfold loadImage_start. rewrite Hfind.
    destruct (String.eqb_spec (image_key d) ""); [| done]. simpl.
    split; [done |]. by apply update_item_this.
Qed.

Lemma loadImage_outcome_witness :
  let s := loadDetections_settled
             (Resolved [mkBackendDetectionRecord "a.jpg" "person" "j1" "20260119-133442-1"])
             (loadDetections_start init) in
  let start := loadImage_start "20260119-133442-1" s in
  start.2 = Some "a.jpg" /\
  detections (loadImage_settled "20260119-133442-1" (Resolved None) start.1) !! 0%nat
  = Some (mkHistoryDisplayItem "20260119-133442-1" "2026-01-19T13:34:42Z" "person"
            "a.jpg" None (Some false) None).
Proof.
  intros s.
  destruct (loadImage_outcome "20260119-133442-1" s 0%nat
              (to_item (mkBackendDetectionRecord "a.jpg" "person" "j1"
                          "20260119-133442-1")) None) as [H _].
  - reflexivity.
  - reflexivity.
  - apply NoDup_singleton.
  - destruct H as (H1 & _ & H3); [discriminate |]. split; [exact H1 | exact H3].
Defined.

End HistoryFacts.

(** ** Invariants of the live view's polling *)

Section PollingInvariants.
Import Auth Aws Polling Invariants Reachable.

(** Case analysis on everything a step of the component inspects. *)
Ltac polling_cases :=
  unfold step, handleAutoRefreshToggle, autoRefresh_effect, startDetectionPolling,
    poll, poll_start, run_microtask, refreshDetections, on_fetched,
    refreshDetections_settled, poll_settled in *;
  simpl in *;
  repeat (first
    [ match goal with
      | |- context [getLatestDetections_start ?b] =>
          let E := fresh "Estart" in
          destruct (getLatestDetections_start b) as [[?req | ?r] ?b'] eqn:E
      | |- context [getLatestDetections_resume ?o ?b] =>
          destruct (getLatestDetections_resume o b) as [?r ?b']
      | |- context [is_login_error ?e] => destruct (is_login_error e)
      | |- context [match ?r with Resolved _ => _ | Rejected _ => _ end] =>
          destruct r
      end
    | case_match
    | case_decide ];
    simpl in *).

Ltac schedule_goal Ht :=
  split;
  [ let h' := fresh "h" in
    let Hin := fresh "Hin" in
    intros h' Hin;
    repeat (first [ rewrite elem_of_union in Hin
                  | rewrite elem_of_difference in Hin
                  | rewrite elem_of_singleton in Hin ]);
    pose proof (Ht h');
    destruct_and?; destruct_or?; destruct_and?; subst;
    first [ by eauto | congruence | naive_solver congruence ]
  | first [ assumption
          | split; [ first [discriminate | intros _; eauto]
                   | first [done | intros [? ?]; congruence] ] ] ].

Lemma one_schedule_step (s : State) (e : Event) :
  one_schedule s -> one_schedule (step s e).
Proof.
  unfold one_schedule. intros [Ht Ha].
  destruct e as [| h | id outcome | now].
  - destruct (detectionsLoading s) eqn:Hl; [simpl; rewrite Hl; done |].
    destruct (autoRefresh s) eqn:Hauto.
    + destruct (proj1 Ha eq_refl) as [h0 Hsp].
      unfold step, handleAutoRefreshToggle. rewrite Hl, Hauto. simpl.
      unfold autoRefresh_effect. simpl. rewrite Hsp. simpl.
      schedule_goal Ht.
    + assert (Hsp : stopPolling s = None).
      { destruct (stopPolling s) eqn:E; [| done].
        assert (false = true) by (apply Ha; eauto). done. }
      unfold step, handleAutoRefreshToggle. rewrite Hl, Hauto. simpl.
      polling_cases; try congruence; schedule_goal Ht.
  - polling_cases; try done; schedule_goal Ht.
  - polling_cases; try done; schedule_goal Ht.
  - done.
Qed.

Lemma one_schedule_run (es : list Event) (s : State) :
  one_schedule s -> one_schedule (run s es).
Proof.
  revert s. induction es as [| e es IH]; intros s Hs; [done |].
  simpl. apply IH. by apply one_schedule_step.
Qed.

Lemma one_schedule_mounted (b : Browser) : one_schedule (mounted b).
Proof.
  unfold mounted, one_schedule. polling_cases;
    (split; [intros h Hin; set_solver | split; [discriminate | intros [? ?]; done]]).
Qed.

(** Auto-refresh never runs two schedules.  In every state the
    component can reach, at most one interval is set; it is the one the
    effect's cleanup holds, so switching auto-refresh off clears it; and
    while auto-refresh is off no interval is set at all. *)
Theorem one_schedule_at_a_time (b : Browser) (es : list Event) :
  let s := run (mounted b) es in
  (forall h h', h ∈ timers s -> h' ∈ timers s -> h = h') /\
  (forall h, h ∈ timers s -> stopPolling s = Some h /\ autoRefresh s = true) /\
  (autoRefresh s = false -> timers s = ∅) /\
  (autoRefresh s = true -> detectionsLoading s = false ->
   timers (step s ClickAutoRefresh) = ∅ /\
   autoRefresh (step s ClickAutoRefresh) = false).
Proof.
  intros s.
  pose proof (one_schedule_run es (mounted b) (one_schedule_mounted b)) as Hs.
  fold s in Hs.
  pose proof (one_schedule_step s ClickAutoRefresh Hs) as Hs'.
  destruct Hs as [Ht Ha]. split_and!.
  - intros h h' Hh Hh'. apply Ht in Hh, Hh'. congruence.
  - intros h Hh. split; [by apply Ht |]. apply Ha. apply Ht in Hh. eauto.
  - intros Hoff. apply set_eq. intros h. split; [| set_solver].
    intros Hh. apply Ht in Hh. assert (autoRefresh s = true) by (apply Ha; eauto).
    congruence.
  - intros Hon Hl.
    assert (Hoff : autoRefresh (step s ClickAutoRefresh) = false).
    { simpl. rewrite Hl. unfold handleAutoRefreshToggle. rewrite Hon. simpl.
      unfold autoRefresh_effect. simpl. by destruct (stopPolling s). }
    split; [| done]. destruct Hs' as [Ht' Ha'].
    apply set_eq. intros h. split; [| set_solver].
    intros Hh. apply Ht' in Hh.
    assert (autoRefresh (step s ClickAutoRefresh) = true) by (apply Ha'; eauto).
    congruence.
Qed.

Lemma one_schedule_at_a_time_witness :
  let s := Scenario.toggled_on in
  timers (step s ClickAutoRefresh) = timers s /\
  timers (step (step s (Fetched 1 (Scenario.answer "x"))) ClickAutoRefresh) = ∅.
Proof.
  intros s. split; [vm_compute; reflexivity |].
  destruct (one_schedule_at_a_time Scenario.signed_in
              [Fetched 0 (Scenario.answer "first"); ClickAutoRefresh;
               Fetched 1 (Scenario.answer "x")]) as (_ & _ & _ & H).
  apply H; vm_compute; reflexivity.
Defined.

(** *** Manual refreshes do not overlap *)

Lemma one_refresh_frame (s s' : State) :
  sent s' = sent s -> inflight s' = inflight s ->
  detectionsLoading s' = detectionsLoading s ->
  one_refresh s -> one_refresh s'.
Proof. unfold one_refresh. intros -> -> ->. done. Qed.

Lemma one_refresh_fetch_poll (s : State) (req : Request) (h : nat) :
  one_refresh s -> one_refresh (fetch req (FromPoll h) s).
Proof.
  intros (Hid & Hoff & Hon). unfold one_refresh. simpl.
  assert (Hfree : inflight s !! length (sent s) = None).
  { destruct (inflight s !! length (sent s)) eqn:E; [| done].
    assert (length (sent s) < length (sent s))%nat by (apply Hid; eauto). lia. }
  split_and!.
  - intros id [o Ho]. rewrite length_app. simpl.
    apply lookup_insert_Some in Ho as [[<- _] | [_ Ho]]; [lia |].
    assert (id < length (sent s))%nat by (apply Hid; eauto). lia.
  - intros Hl id Ho. apply lookup_insert_Some in Ho as [[_ Ho] | [_ Ho]];
      [discriminate | by apply (Hoff Hl id)].
  - intros Hl. destruct (Hon Hl) as (id & Ho & Huniq). exists id. split.
    + rewrite lookup_insert_ne; [done |]. intros <-. congruence.
    + intros id' Ho'. apply lookup_insert_Some in Ho' as [[_ Ho'] | [_ Ho']];
        [discriminate | by apply Huniq].
Qed.

Lemma one_refresh_refreshDetections (s : State) :
  one_refresh s -> detectionsLoading s = false -> one_refresh (refreshDetections s).
Proof.
  intros (Hid & Hoff & Hon) Hl. unfold refreshDetections.
  change (browser (setDetectionsLoading true s)) with (browser s).
  destruct (getLatestDetections_start (browser s)) as [[req | r] b'].
  - unfold one_refresh. simpl. split_and!.
    + intros id [o Ho]. rewrite length_app. simpl.
      apply lookup_insert_Some in Ho as [[<- _] | [_ Ho]]; [lia |].
      assert (id < length (sent s))%nat by (apply Hid; eauto). lia.
    + discriminate.
    + intros _. exists (length (sent s)). split; [apply lookup_insert_eq |].
      intros id' Ho'. apply lookup_insert_Some in Ho' as [[<- _] | [_ Ho']];
        [done | by destruct (Hoff Hl id')].
  - unfold refreshDetections_settled, one_refresh.
    destruct r; simpl; (split_and!; [done | intros _; by apply Hoff | discriminate]).
Qed.

Lemma one_refresh_poll_start (s : State) (h : nat) :
  one_refresh s -> one_refresh (poll_start h s).1.
Proof.
  intros Hs. unfold poll_start.
  destruct (getLatestDetections_start (browser s)) as [[req | r] b']; simpl.
  - apply one_refresh_fetch_poll. by apply (one_refresh_frame s).
  - by apply (one_refresh_frame s).
Qed.

Lemma one_refresh_poll_settled (s : State) (h : nat) (r : Settled LiveDetections) :
  one_refresh s -> one_refresh (poll_settled h r s).
Proof.
  intros Hs. unfold poll_settled. destruct r as [d | e].
  - by apply (one_refresh_frame s).
  - destruct (is_login_error e); [by apply (one_refresh_frame s) | done].
Qed.

Lemma one_refresh_startDetectionPolling (s : State) :
  one_refresh s -> one_refresh (startDetectionPolling s).1.
Proof.
  intros Hs. unfold startDetectionPolling.
  pose proof (one_refresh_poll_start s (nextTimer s) Hs) as H1.
  destruct (poll_start (nextTimer s) s) as [s1 [r |]]; simpl in *.
  - apply one_refresh_poll_settled. by apply (one_refresh_frame s1).
  - by apply (one_refresh_frame s1).
Qed.

Lemma one_refresh_autoRefresh_effect (s : State) :
  one_refresh s -> one_refresh (autoRefresh_effect s).
Proof.
  intros Hs. unfold autoRefresh_effect.
  set (s1 := match stopPolling s with
             | Some h => set_stopPolling None (clearInterval h s)
             | None => s
             end).
  assert (H1 : one_refresh s1).
  { subst s1. destruct (stopPolling s); [by apply (one_refresh_frame s) | done]. }
  destruct (autoRefresh s1); [| done].
  pose proof (one_refresh_startDetectionPolling s1 H1) as H2.
  destruct (startDetectionPolling s1) as [s2 h]. simpl in H2.
  by apply (one_refresh_frame s2).
Qed.

Lemma one_refresh_on_fetched (s : State) (id : nat)
    (outcome : Settled (Response GetDetectionsResponse)) :
  one_refresh s -> one_refresh (on_fetched id outcome s).
Proof.
  intros (Hid & Hoff & Hon). unfold on_fetched.
  destruct (inflight s !! id) as [o |] eqn:Ho; [| done].
  destruct (getLatestDetections_resume outcome (browser (settle_request id s)))
    as [r b'].
  assert (Hids : forall id', is_Some (delete id (inflight s) !! id') ->
                             (id' < length (sent s))%nat).
  { intros id' [o' Ho']. apply lookup_delete_Some in Ho' as [_ Ho']. apply Hid. eauto. }
  destruct o as [h |].
  - apply one_refresh_poll_settled. unfold one_refresh. simpl. split_and!.
    + done.
    + intros Hl id' Ho'. apply lookup_delete_Some in Ho' as [_ Ho'].
      by apply (Hoff Hl id').
    + intros Hl. destruct (Hon Hl) as (id0 & Ho0 & Huniq). exists id0. split.
      * rewrite lookup_delete_ne; [done |]. intros <-. congruence.
      * intros id' Ho'. apply lookup_delete_Some in Ho' as [_ Ho']. by apply Huniq.
  - assert (Hnone : forall id', delete id (inflight s) !! id' <> Some FromRefresh).
    { intros id' Ho'. apply lookup_delete_Some in Ho' as [Hne Ho'].
      destruct (detectionsLoading s) eqn:Hl.
      - destruct (Hon eq_refl) as (id0 & _ & Huniq).
        rewrite (Huniq id Ho), (Huniq id' Ho') in Hne. done.
      - by apply (Hoff eq_refl id). }
    unfold refreshDetections_settled, one_refresh.
    destruct r; simpl; (split_and!; [done | intros _; apply Hnone | discriminate]).
Qed.

Lemma one_refresh_step (s : State) (e : Event) : one_refresh s -> one_refresh (step s e).
Proof.
  intros Hs. destruct e as [| h | id outcome | now]; simpl.
  - destruct (detectionsLoading s) eqn:Hl; [done |].
    unfold handleAutoRefreshToggle. apply one_refresh_autoRefresh_effect.
    destruct (negb (autoRefresh s)).
    + apply (one_refresh_frame (refreshDetections s)); try done.
      by apply one_refresh_refreshDetections.
    + by apply (one_refresh_frame s).
  - destruct (decide (h ∈ timers s)); [| done].
    unfold poll. pose proof (one_refresh_poll_start s h Hs) as H1.
    destruct (poll_start h s) as [s1 [r |]]; simpl in *; [| done].
    by apply one_refresh_poll_settled.
  - by apply one_refresh_on_fetched.
  - by apply (one_refresh_frame s).
Qed.

Lemma one_refresh_run (es : list Event) (s : State) :
  one_refresh s -> one_refresh (run s es).
Proof.
  revert s. induction es as [| e es IH]; intros s Hs; [done |].
  simpl. apply IH. by apply one_refresh_step.
Qed.

Lemma one_refresh_mounted (b : Browser) : one_refresh (mounted b).
Proof.
  unfold mounted. apply one_refresh_refreshDetections; [| done].
  unfold one_refresh. simpl. split_and!.
  - intros id [o Ho]. by rewrite lookup_empty in Ho.
  - intros _ id Ho. by rewrite lookup_empty in Ho.
  - discriminate.
Qed.

(** Manual refreshes do not overlap.  In every state the component can
    reach, a request of [refreshDetections] is outstanding exactly while
    [detectionsLoading] is set, there is never more than one, and a new
    request never takes the identifier of an outstanding one. *)
Theorem one_refresh_at_a_time (b : Browser) (es : list Event) :
  let s := run (mounted b) es in
  (detectionsLoading s = true <-> exists id, inflight s !! id = Some FromRefresh) /\
  (forall id id', inflight s !! id = Some FromRefresh ->
                  inflight s !! id' = Some FromRefresh -> id = id') /\
  (forall id, is_Some (inflight s !! id) -> (id < length (sent s))%nat).
Proof.
  intros s.
  pose proof (one_refresh_run es (mounted b) (one_refresh_mounted b)) as Hs.
  fold s in Hs. destruct Hs as (Hid & Hoff & Hon). split_and!.
  - split.
    + intros Hl. destruct (Hon Hl) as (id & Ho & _). eauto.
    + intros [id Ho]. destruct (detectionsLoading s) eqn:Hl; [done |].
      by destruct (Hoff eq_refl id).
  - intros id id' Ho Ho'. destruct (detectionsLoading s) eqn:Hl.
    + destruct (Hon eq_refl) as (id0 & _ & Huniq).
      by rewrite (Huniq id Ho), (Huniq id' Ho').
    + by destruct (Hoff eq_refl id).
  - done.
Qed.

Lemma one_refresh_at_a_time_witness :
  detectionsLoading Scenario.toggled_on = true.
Proof.
  destruct (one_refresh_at_a_time Scenario.signed_in
              [Fetched 0 (Scenario.answer "first"); ClickAutoRefresh]) as ([_ H] & _).
  apply H. exists 1%nat. vm_compute. reflexivity.
Defined.

(** *** Every request of the live view carries a token *)

Lemma getLatestDetections_start_dispatched (b b' : Browser) (req : Request) :
  getLatestDetections_start b = (Dispatched req, b') -> authenticated_request req.
Proof.
  unfold getLatestDetections_start. intros H.
  destruct (authenticatedFetch_request_result detections_url ∅ b)
    as [Hreq | (t & Ht & Hreq)]; rewrite Hreq in H.
  - by destruct (getLatestDetections_catch no_token_error b).
  - inversion H; subst. split; [done |]. exists t. split; [done |].
    simpl. apply lookup_insert_eq.
Qed.

Lemma sent_refreshDetections (s : State) :
  Forall authenticated_request (sent s) ->
  Forall authenticated_request (sent (refreshDetections s)).
Proof.
  intros Hs. unfold refreshDetections.
  destruct (getLatestDetections_start (browser (setDetectionsLoading true s)))
    as [[req | r] b'] eqn:E.
  - simpl. apply Forall_app. split; [done |]. apply Forall_singleton.
    exact (getLatestDetections_start_dispatched _ b' req E).
  - by destruct r.
Qed.

Lemma sent_poll_start (s : State) (h : nat) :
  Forall authenticated_request (sent s) ->
  Forall authenticated_request (sent (poll_start h s).1).
Proof.
  intros Hs. unfold poll_start.
  destruct (getLatestDetections_start (browser s)) as [[req | r] b'] eqn:E; [| done].
  simpl. apply Forall_app. split; [done |]. apply Forall_singleton.
  exact (getLatestDetections_start_dispatched _ b' req E).
Qed.

Lemma sent_poll_settled (s : State) (h : nat) (r : Settled LiveDetections) :
  sent (poll_settled h r s) = sent s.
Proof. unfold poll_settled. destruct r as [d | e]; [done |]. by destruct (is_login_error e). Qed.

Lemma sent_step (s : State) (e : Event) :
  Forall authenticated_request (sent s) ->
  Forall authenticated_request (sent (step s e)).
Proof.
  intros Hs. destruct e as [| h | id outcome | now]; simpl.
  - destruct (detectionsLoading s); [done |].
    unfold handleAutoRefreshToggle, autoRefresh_effect.
    set (s0 := setAutoRefresh _ _).
    assert (H0 : Forall authenticated_request (sent s0)).
    { subst s0. destruct (negb (autoRefresh s)); [| done].
      by apply sent_refreshDetections. }
    set (s1 := match stopPolling s0 with
               | Some h => set_stopPolling None (clearInterval h s0)
               | None => s0
               end).
    assert (H1 : Forall authenticated_request (sent s1)).
    { subst s1. by destruct (stopPolling s0). }
    destruct (autoRefresh s1); [| done].
    unfold startDetectionPolling.
    pose proof (sent_poll_start s1 (nextTimer s1) H1) as H2.
    destruct (poll_start (nextTimer s1) s1) as [s2 [r |]]; simpl in *; [| done].
    by rewrite sent_poll_settled.
  - destruct (decide (h ∈ timers s)); [| done].
    unfold poll. pose proof (sent_poll_start s h Hs) as H1.
    destruct (poll_start h s) as [s1 [r |]]; simpl in *; [| done].
    by rewrite sent_poll_settled.
  - unfold on_fetched. destruct (inflight s !! id) as [o |]; [| done].
    destruct (getLatestDetections_resume outcome (browser (settle_request id s)))
      as [r b'].
    destruct o as [h |]; [by rewrite sent_poll_settled | by destruct r].
  - done.
Qed.

(** No request of the live view leaves without a token: in every state
    the component can reach, each request that was passed to [fetch]
    goes to the detections endpoint and carries a bearer token that is
    not empty. *)
Theorem requests_carry_a_token (b : Browser) (es : list Event) :
  Forall authenticated_request (sent (run (mounted b) es)).
Proof.
  assert (H : forall s, Forall authenticated_request (sent s) ->
                        Forall authenticated_request (sent (run s es))).
  { induction es as [| e es IH]; intros s Hs; [done |].
    simpl. apply IH. by apply sent_step. }
  apply H. unfold mounted. by apply sent_refreshDetections.
Qed.

End PollingInvariants.

(** ** The live stream: attempts and retries *)

Section StreamInvariants.
Import Stream Reachable.

Lemma attempt_guarded_step (s : State) (e : Event) :
  attempt_guarded s -> attempt_guarded (step s e).
Proof.
  unfold attempt_guarded. intros (Ha & Hsrc & Hpl).
  destruct s as [st err hv att pe so pl];
  destruct e as [c | | | status | | | | pc hs | played |];
  unfold step, ontrack, startStream, startStream_catch, play_then, play_catch,
    onPlaying in *;
  simpl in *; repeat case_match; simpl in *; subst;
  (split_and!;
   [ first [ done
           | let Hat := fresh in
             intros Hat; destruct (Ha Hat) as [? ?]; split; [auto | lia]
           | intros _; destruct (Ha ltac:(done)) as [? ?]; split; [auto | lia]
           | intros _; split; [auto | lia] ]
   | intros pc' Hpc'; first [ discriminate Hpc'
                            | inversion Hpc'; subst; lia
                            | specialize (Hsrc pc' Hpc'); lia ]
   | first [ done | intros Hp; first [apply Hpl; lia | discriminate | lia] ] ]).
Qed.

Lemma attempt_guarded_run (es : list Event) (s : State) :
  attempt_guarded s -> attempt_guarded (run s es).
Proof.
  revert s. induction es as [| e es IH]; intros s Hs; [done |].
  simpl. apply IH. by apply attempt_guarded_step.
Qed.

Lemma attempt_guarded_init : attempt_guarded init.
Proof.
  unfold attempt_guarded, init. simpl. split_and!; [done | discriminate | lia].
Qed.

(** Connection attempts do not overlap.  In every state the stream can
    reach, a call of [startStream] is suspended only while the state is
    [connecting] or [streaming]; so a start that is accepted never finds
    an earlier attempt still running, and what the video element shows
    always comes from a peer connection that was created. *)
Theorem attempts_do_not_overlap (es : list Event) :
  let s := run init es in
  (attempt s <> None ->
   streamState s = connecting \/ streamState s = streaming) /\
  (forall c, step s (ClickStart c) <> s -> attempt s = None) /\
  (forall pc, srcObject s = Some pc -> (pc < peers s)%nat).
Proof.
  intros s.
  pose proof (attempt_guarded_run es init attempt_guarded_init) as Hs.
  fold s in Hs. destruct Hs as (Ha & Hsrc & _). split_and!.
  - intros Hat. by destruct (Ha Hat).
  - intros c Hstep. destruct (attempt s) eqn:Hat; [| done].
    exfalso. apply Hstep.
    destruct (Ha ltac:(done)) as [[Hst | Hst] _]; unfold step; rewrite Hst;
      reflexivity.
  - done.
Qed.

Lemma attempts_do_not_overlap_witness :
  attempt (run init [ClickStart true; OfferCreated; Failed]) = None.
Proof.
  destruct (attempts_do_not_overlap [ClickStart true; OfferCreated; Failed])
    as (_ & H & _).
  apply (H true). vm_compute. discriminate.
Defined.

(** A failed attempt and the retry.  Whatever step of the signaling is
    awaited, its failure, and likewise an answer of the device that is
    not ok, puts the stream in [error] with the message for the user and
    ends the attempt; a click on start is then accepted: it creates a
    new peer connection, clears the message and the video flag, and the
    state is [connecting] again. *)
Theorem failed_attempt_can_be_retried (s : State) (status : Z) :
  attempt s <> None ->
  let failed := step s Failed in
  let retried := step failed (ClickStart true) in
  streamState failed = error /\
  streamError failed
  = "Stream unavailable. Check Jetson URL / backend status, then try again." /\
  attempt failed = None /\
  (attempt s = Some AwaitFetch -> (200 <=? status) && (status <=? 299) = false ->
   step s (OfferAnswered status) = failed) /\
  streamState retried = connecting /\
  streamError retried = "" /\ hasVideo retried = false /\
  peers retried = S (peers s) /\
  attempt retried = Some AwaitCreateOffer.
Proof.
  intros Hat. destruct s as [st err hv [a |] pe so pl]; [| done].
  simpl. split_and!; try done.
  intros Ha Hok. inversion Ha; subst. simpl. by rewrite Hok.
Qed.

Lemma failed_attempt_can_be_retried_witness :
  let s := run init [ClickStart true; OfferCreated; LocalDescriptionSet] in
  step s (OfferAnswered 503) = step s Failed /\
  streamState (step s (OfferAnswered 503)) = error /\
  peers (step (step s (OfferAnswered 503)) (ClickStart true)) = 2%nat.
Proof.
  intros s.
  destruct (failed_attempt_can_be_retried s 503 ltac:(discriminate))
    as (H1 & _ & _ & H4 & _ & _ & _ & H8 & _).
  rewrite (H4 eq_refl eq_refl). split_and!; [done | exact H1 | exact H8].
Defined.

End StreamInvariants.

(** ** Device commands: the message shown *)

Section CommandMessages.
Import Auth Commands Invariants.

Lemma quiet_while_pending_step (s : State) (e : Event) :
  exclusive s -> (controlLoading s <> None -> controlMsg s = "") ->
  controlLoading (step s e) <> None -> controlMsg (step s e) = "".
Proof.
  intros Hex Hq. destruct e as [| | id outcome]; simpl.
  - unfold buttons_disabled. destruct (controlLoading s) eqn:Hc; [| done].
    intros _. by apply Hq.
  - unfold buttons_disabled. destruct (controlLoading s) eqn:Hc; [| done].
    intros _. by apply Hq.
  - destruct (inflight s !! id) as [[|] |] eqn:Hid; [| | done];
      unfold handleStopTracking_settled, handleMarkThreat_settled; simpl; done.
Qed.

(** The message of the control panel.  In every state the buttons can
    bring about, no message is shown while a command is pending.  When
    the request of the pending command settles, the message says that
    the command was sent exactly when the device answered with an ok
    status, and that sending failed in every other case: an answer that
    is not ok, or no answer at all. *)
Theorem command_message (es : list Event) (id : nat) (k : Control)
    (outcome : Settled (Response unit)) :
  let s := run init es in
  (controlLoading s <> None -> controlMsg s = "") /\
  (inflight s !! id = Some k ->
   controlMsg (step s (Fetched id outcome)) =
   match k, outcome with
   | stop, Resolved res =>
       if ok res then "Stop tracking command sent successfully."
       else "Failed to send stop tracking command (Jetson API not reachable yet)."
   | stop, Rejected _ =>
       "Failed to send stop tracking command (Jetson API not reachable yet)."
   | threat, Resolved res =>
       if ok res then "Mark as threat command sent successfully."
       else "Failed to send mark threat command (Jetson API not reachable yet)."
   | threat, Rejected _ =>
       "Failed to send mark threat command (Jetson API not reachable yet)."
   end).
Proof.
  intros s. split.
  - subst s. induction es as [| e es IH] using rev_ind; [done |].
    unfold run. rewrite foldl_app. simpl.
    apply quiet_while_pending_step; [apply exclusive_run, exclusive_init | exact IH].
  - intros Hid. simpl. rewrite Hid.
    destruct k, outcome as [res | e]; simpl; try done;
      unfold sendStopTracking_resume, sendMarkThreat_resume; by destruct (ok res).
Qed.

Lemma command_message_witness :
  let s := run init [ClickMarkThreat] in
  controlMsg s = "" /\
  controlMsg (step s (Fetched 0 (Rejected (ErrorObj "Failed to fetch"))))
  = "Failed to send mark threat command (Jetson API not reachable yet).".
Proof.
  intros s.
  destruct (command_message [ClickMarkThreat] 0%nat threat
              (Rejected (ErrorObj "Failed to fetch"))) as [H1 H2].
  split; [apply H1; discriminate | apply H2; vm_compute; reflexivity].
Defined.

End CommandMessages.
